(** * Lead filtering, faceting, grouping and send handlers of the CRM console

    A shallow embedding of [src/frontend/src/lib/leads.ts]
    ([applyLeadFilters], [deriveFilterOptions], [groupByDateAdded]),
    of [formatDayHeader] from [src/frontend/src/lib/dates.ts], of the
    bulk send handler of the lead queue page and of the reply handler of
    the conversation panel.

    JavaScript values are modelled as the code receives them: [crm_raw] is
    a JSON object (an association list, first key wins), a missing key is
    [None] (JavaScript [undefined]), and a JavaScript number is [num]:
    a finite value as an exact rational, or NaN, or an infinity.  The
    host functions the code relies on ([Number] on strings,
    [Number.prototype.toString], date-fns [parseISO], the [Date]
    constructor, [String.prototype.localeCompare]) are parameters of the
    sections below; every theorem holds for every choice of them. *)

From Stdlib Require Import ZArith QArith String Ascii List Bool Lia.
From Stdlib Require Import Sorting.Permutation Sorting.Sorted.
Import ListNotations.

Set Warnings "-register-all".

Open Scope string_scope.

(** ** JavaScript values *)

Inductive json : Type :=
  | JNull
  | JBool (b : bool)
  | JNum (q : Q)
  | JStr (s : string)
  | JArr (l : list json)
  | JObj (o : list (string * json)).

(** A JavaScript number: finite (as an exact rational), NaN, or an
    infinity.  [-0] behaves as [0] for every operation used here
    ([===], [<], [!]) and is not distinguished. *)
Inductive num : Type :=
  | Fin (q : Q)
  | NaN
  | PosInf
  | NegInf.

(** [x === y] on numbers. *)
Definition num_eqb (x y : num) : bool :=
  match x, y with
  | Fin a, Fin b => Qeq_bool a b
  | PosInf, PosInf => true
  | NegInf, NegInf => true
  | _, _ => false
  end.

Definition Qlt_bool (a b : Q) : bool := negb (Qle_bool b a).

(** [x < y] on numbers (false as soon as one side is NaN). *)
Definition num_ltb (x y : num) : bool :=
  match x, y with
  | Fin a, Fin b => Qlt_bool a b
  | Fin _, PosInf => true
  | NegInf, Fin _ => true
  | NegInf, PosInf => true
  | _, _ => false
  end.

Definition is_nan (x : num) : bool :=
  match x with NaN => true | _ => false end.

(** A JSON object read as a [Record<string, unknown>]: [raw[field]]. *)
Fixpoint obj_get (raw : list (string * json)) (field : string) : option json :=
  match raw with
  | [] => None
  | (k, v) :: rest => if String.eqb k field then Some v else obj_get rest field
  end.

(** [Boolean(value)] for a value read from [crm_raw]. *)
Definition truthy (v : option json) : bool :=
  match v with
  | None => false
  | Some JNull => false
  | Some (JBool b) => b
  | Some (JNum q) => negb (Qeq_bool q 0)
  | Some (JStr s) => negb (String.eqb s "")
  | Some (JArr _) => true
  | Some (JObj _) => true
  end.

(** ** Data model ([src/frontend/src/types/leads.ts]) *)

Inductive LeadStatus : Type := LEAD | REACHED_OUT | ERROR.

Record OutreachHistoryEntry : Type := {
  entry_date : option string;
  entry_success : bool;
  entry_note : option string
}.

Record Lead : Type := {
  property_id : string;
  display_id : string;
  title : string;
  date_added : string;
  lister_name : string;
  lister_phone : option string;
  status : LeadStatus;
  outreach_history : list OutreachHistoryEntry;
  (** [None]: the payload carried no object ([lead.crm_raw ?? {}]). *)
  crm_raw : option (list (string * json));
  last_message_excerpt : option string;
  last_message_at : option string;
  unread_count : option num
}.

Record Transaction : Type := { sale : bool; rent : bool }.

Inductive Rooms : Type := RoomsAll | Rooms1 | Rooms2 | Rooms3 | Rooms4 | Rooms5Plus.

Record LeadFilters : Type := {
  propertyTypes : list num;
  regionId : option num;
  zoneId : option num;
  transaction : Transaction;
  rooms : Rooms;
  minBudget : option num;
  maxBudget : option num;
  dateFrom : option string;
  dateTo : option string
}.

Definition DEFAULT_LEAD_FILTERS : LeadFilters := {|
  propertyTypes := [];
  regionId := None;
  zoneId := None;
  transaction := {| sale := false; rent := false |};
  rooms := RoomsAll;
  minBudget := None;
  maxBudget := None;
  dateFrom := None;
  dateTo := None
|}.

Record OptionItem : Type := { value : Q; label : string }.

(** [Array.prototype.filter]. *)
Fixpoint js_filter {A : Type} (p : A -> bool) (l : list A) : list A :=
  match l with
  | [] => []
  | x :: xs => if p x then x :: js_filter p xs else js_filter p xs
  end.

(** [Array.prototype.includes] on numbers (SameValueZero). *)
Definition includes_num (l : list num) (q : Q) : bool :=
  existsb (fun x => num_eqb x (Fin q)) l.

(** [!x] for [x : number | undefined] with a finite number. *)
Definition falsy_num (x : option Q) : bool :=
  match x with None => true | Some q => Qeq_bool q 0 end.

(** Truthiness of an optional string ([filters.dateFrom || ...]). *)
Definition truthy_str (s : option string) : bool :=
  match s with None => false | Some s => negb (String.eqb s "") end.

Section Filters.

(** [StringToNumber]: [Number(s)] for a string [s]. *)
Variable StringToNumber : string -> num.
(** [Number.prototype.toString] on a finite number. *)
Variable NumberToString : Q -> string.
(** [new Date(s).getTime()] ([None]: an Invalid Date). *)
Variable DateParse : string -> option Z.

(** [String(x)] of an array element inside [Array.prototype.join]. *)
Fixpoint json_to_string (v : json) : string :=
  match v with
  | JNull => ""
  | JBool true => "true"
  | JBool false => "false"
  | JNum q => NumberToString q
  | JStr s => s
  | JArr l =>
      (fix join (l : list json) : string :=
         match l with
         | [] => ""
         | [x] => json_to_string x
         | x :: xs => json_to_string x ++ "," ++ join xs
         end) l
  | JObj _ => "[object Object]"
  end.

(** [Number(value)] for a defined JSON value. *)
Definition Number (v : json) : num :=
  match v with
  | JNull => Fin 0
  | JBool b => Fin (if b then 1 else 0)
  | JNum q => Fin q
  | JStr s => StringToNumber s
  | JArr _ => StringToNumber (json_to_string v)
  | JObj _ => NaN
  end.

(** [toNumber] (leads.ts, lines 79-85). *)
Definition toNumber (v : option json) : option Q :=
  match v with
  | None => None
  | Some v =>
      if match v with JNull => true | JStr s => String.eqb s "" | _ => false end
      then None
      else match Number v with Fin q => Some q | _ => None end
  end.

Definition raw_of (lead : Lead) : list (string * json) :=
  match crm_raw lead with Some r => r | None => [] end.

(** The seven clauses of the [leads.filter] callback of
    [applyLeadFilters], in source order; each is [false] exactly when the
    callback runs into its [return false]. *)

(** Property type (lines 171-176). *)
Definition clause_property_type (filters : LeadFilters) (raw : list (string * json)) : bool :=
  match propertyTypes filters with
  | [] => true
  | _ :: _ =>
      let propType := toNumber (obj_get raw "property_type") in
      if falsy_num propType then false
      else match propType with
           | Some q => includes_num (propertyTypes filters) q
           | None => false
           end
  end.

(** Region (lines 179-184). *)
Definition clause_region (filters : LeadFilters) (raw : list (string * json)) : bool :=
  match regionId filters with
  | None => true
  | Some r =>
      let rid := toNumber (obj_get raw "region_obj_id") in
      if falsy_num rid then false
      else match rid with
           | Some q => num_eqb (Fin q) r
           | None => false
           end
  end.

(** Zone (lines 187-192). *)
Definition clause_zone (filters : LeadFilters) (raw : list (string * json)) : bool :=
  match zoneId filters with
  | None => true
  | Some z =>
      let zid := toNumber (obj_get raw "zone_id") in
      if falsy_num zid then false
      else match zid with
           | Some q => num_eqb (Fin q) z
           | None => false
           end
  end.

(** Transaction type (lines 195-208). *)
Definition clause_transaction (filters : LeadFilters) (raw : list (string * json)) : bool :=
  let saleSelected := sale (transaction filters) in
  let rentSelected := rent (transaction filters) in
  if saleSelected || rentSelected then
    let isSale := truthy (obj_get raw "for_sale") in
    let isRent := truthy (obj_get raw "for_rent") in
    if saleSelected && negb rentSelected && negb isSale then false
    else if negb saleSelected && rentSelected && negb isRent then false
    else if saleSelected && rentSelected && negb isSale && negb isRent then false
    else true
  else true.

Definition rooms_number (r : Rooms) : Q :=
  match r with
  | Rooms1 => 1 | Rooms2 => 2 | Rooms3 => 3 | Rooms4 => 4
  | _ => 0
  end.

(** Rooms (lines 211-225). *)
Definition clause_rooms (filters : LeadFilters) (raw : list (string * json)) : bool :=
  match rooms filters with
  | RoomsAll => true
  | r =>
      match toNumber (obj_get raw "rooms") with
      | None => false
      | Some n =>
          match r with
          | Rooms5Plus => negb (Qlt_bool n 5)
          | _ => Qeq_bool n (rooms_number r)
          end
      end
  end.

(** [withinRange] (lines 233-250). *)
Definition withinRange (filters : LeadFilters) (price : option Q) : bool :=
  match price with
  | None => false
  | Some p =>
      if match minBudget filters with
         | Some m => num_ltb (Fin p) m
         | None => false
         end then false
      else if match maxBudget filters with
              | Some m => num_ltb m (Fin p)
              | None => false
              end then false
      else true
  end.

(** Budget (lines 228-270). *)
Definition clause_budget (filters : LeadFilters) (raw : list (string * json)) : bool :=
  let saleSelected := sale (transaction filters) in
  let rentSelected := rent (transaction filters) in
  let hasBudget :=
    match minBudget filters, maxBudget filters with
    | None, None => false
    | _, _ => true
    end in
  if hasBudget then
    let priceSale := toNumber (obj_get raw "price_sale") in
    let priceRent := toNumber (obj_get raw "price_rent") in
    let matchesBudget :=
      if saleSelected && negb rentSelected then withinRange filters priceSale
      else if negb saleSelected && rentSelected then withinRange filters priceRent
      else if saleSelected && rentSelected then
        withinRange filters priceSale || withinRange filters priceRent
      else withinRange filters priceSale || withinRange filters priceRent in
    matchesBudget
  else true.

(** [a < b] on two Date objects (their time values; false on NaN). *)
Definition date_ltb (a b : option Z) : bool :=
  match a, b with Some x, Some y => Z.ltb x y | _, _ => false end.

(** Date range (lines 274-291). *)
Definition clause_date (filters : LeadFilters) (lead : Lead) : bool :=
  if truthy_str (dateFrom filters) || truthy_str (dateTo filters) then
    let addedDate := DateParse (date_added lead) in
    match addedDate with
    | None => false
    | Some _ =>
        if match dateFrom filters with
           | Some f => negb (String.eqb f "") &&
                       date_ltb addedDate (DateParse (f ++ "T00:00:00"))
           | None => false
           end then false
        else if match dateTo filters with
                | Some t => negb (String.eqb t "") &&
                            date_ltb (DateParse (t ++ "T23:59:59")) addedDate
                | None => false
                end then false
        else true
    end
  else true.

(** The callback of [leads.filter] (lines 167-294). *)
Definition lead_matches (filters : LeadFilters) (lead : Lead) : bool :=
  let raw := raw_of lead in
  clause_property_type filters raw &&
  clause_region filters raw &&
  clause_zone filters raw &&
  clause_transaction filters raw &&
  clause_rooms filters raw &&
  clause_budget filters raw &&
  clause_date filters lead.

(** [applyLeadFilters] (lines 156-295). *)
Definition applyLeadFilters (leads : list Lead) (filters : LeadFilters) : list Lead :=
  match leads with
  | [] => leads
  | _ => js_filter (lead_matches filters) leads
  end.

End Filters.

(** ** Strings *)

(** Strings of this development are UTF-8 byte strings, as the source
    files are ([Județ #] is the bytes of its UTF-8 encoding).
    [String.prototype.trim] removes the code points of WhiteSpace and
    LineTerminator from both ends: tab, line feed, vertical tab, form
    feed, carriage return and space (one byte each), U+00A0 (two bytes),
    and U+1680, U+2000-U+200A, U+2028, U+2029, U+202F, U+205F, U+3000 and
    U+FEFF (three bytes each). *)
Definition is_js_whitespace (c : ascii) : bool :=
  let n := nat_of_ascii c in
  (Nat.leb 9 n && Nat.leb n 13) || Nat.eqb n 32.

(** The two-byte whitespace [c b1]: U+00A0 is [C2 A0]. *)
Definition is_js_whitespace2 (c b1 : ascii) : bool :=
  Nat.eqb (nat_of_ascii c) 194 && Nat.eqb (nat_of_ascii b1) 160.

(** The three-byte whitespace [c b1 b2]. *)
Definition is_js_whitespace3 (c b1 b2 : ascii) : bool :=
  let n0 := nat_of_ascii c in
  let n1 := nat_of_ascii b1 in
  let n2 := nat_of_ascii b2 in
  (Nat.eqb n0 225 && Nat.eqb n1 154 && Nat.eqb n2 128) ||
  (Nat.eqb n0 226 && Nat.eqb n1 128 &&
     ((Nat.leb 128 n2 && Nat.leb n2 138) || Nat.eqb n2 168 || Nat.eqb n2 169 ||
      Nat.eqb n2 175)) ||
  (Nat.eqb n0 226 && Nat.eqb n1 129 && Nat.eqb n2 159) ||
  (Nat.eqb n0 227 && Nat.eqb n1 128 && Nat.eqb n2 128) ||
  (Nat.eqb n0 239 && Nat.eqb n1 187 && Nat.eqb n2 191).

(** Drops the whitespace code points at the start. *)
Fixpoint trim_start (cs : list ascii) : list ascii :=
  match cs with
  | [] => []
  | c :: rest =>
      if is_js_whitespace c then trim_start rest
      else match rest with
           | b1 :: rest1 =>
               if is_js_whitespace2 c b1 then trim_start rest1
               else match rest1 with
                    | b2 :: rest2 =>
                        if is_js_whitespace3 c b1 b2 then trim_start rest2 else cs
                    | [] => cs
                    end
           | [] => cs
           end
  end.

(** Drops the whitespace code points at the end, on the reversed bytes.
    A multi-byte match starts at a lead byte ([C2], [E1]-[E3], [EF]),
    which is never a continuation byte, so it is a whole code point. *)
Fixpoint trim_end_rev (rcs : list ascii) : list ascii :=
  match rcs with
  | [] => []
  | c :: rest =>
      if is_js_whitespace c then trim_end_rev rest
      else match rest with
           | b1 :: rest1 =>
               if is_js_whitespace2 b1 c then trim_end_rev rest1
               else match rest1 with
                    | b2 :: rest2 =>
                        if is_js_whitespace3 b2 b1 c then trim_end_rev rest2 else rcs
                    | [] => rcs
                    end
           | [] => rcs
           end
  end.

Definition js_trim (s : string) : string :=
  string_of_list_ascii (rev (trim_end_rev (rev (trim_start (list_ascii_of_string s))))).

(** ** [Array.prototype.sort] *)

(** A stable sort by a comparator whose result is read as JavaScript's
    [SortCompare] reads it (a NaN result counts as [+0], modelled by the
    comparator returning [0]): [x] is placed before [y] exactly when the
    comparator says [y] comes after [x].  For a consistent comparator the
    stable sorted permutation is unique, so this is the result of every
    conforming engine. *)
Fixpoint insert_by {A : Type} (cmp : A -> A -> Z) (x : A) (l : list A) : list A :=
  match l with
  | [] => [x]
  | y :: l' => if Z.ltb 0 (cmp y x) then x :: l else y :: insert_by cmp x l'
  end.

Definition js_sort {A : Type} (cmp : A -> A -> Z) (l : list A) : list A :=
  fold_left (fun acc x => insert_by cmp x acc) l [].

(** ** Filter facets ([deriveFilterOptions], leads.ts lines 62-154) *)

Definition PROPERTY_TYPE_OPTIONS : list OptionItem := [
  {| value := 1; label := "Apartament" |};
  {| value := 2; label := "Casă / Vilă" |};
  {| value := 3; label := "Teren" |};
  {| value := 4; label := "Spațiu de birouri" |};
  {| value := 5; label := "Spațiu comercial" |};
  {| value := 6; label := "Spațiu industrial" |};
  {| value := 7; label := "Hotel / Pensiune" |};
  {| value := 8; label := "Proprietate specială" |}
].

Record FilterOptions : Type := {
  optPropertyTypes : list OptionItem;
  regions : list OptionItem;
  zones : list OptionItem
}.

(** [extractLabel] (lines 92-103). *)
Fixpoint extractLabel (raw : list (string * json)) (keys : list string) : option string :=
  match keys with
  | [] => None
  | key :: rest =>
      match obj_get raw key with
      | Some (JStr v) =>
          if Nat.ltb 0 (String.length (js_trim v)) then Some v
          else extractLabel raw rest
      | _ => extractLabel raw rest
      end
  end.

(** A [Set<number>] in insertion order: [has] and [add]. *)
Definition set_has (s : list Q) (q : Q) : bool := existsb (Qeq_bool q) s.

Definition set_add (s : list Q) (q : Q) : list Q :=
  if set_has s q then s else app s [q].

(** A [Map<number, string>] in insertion order: [has] and [set] of a new
    key. *)
Definition map_has (m : list (Q * string)) (q : Q) : bool :=
  existsb (fun e => Qeq_bool (fst e) q) m.

Record FacetState : Type := {
  propertyTypeSet : list Q;
  regionMap : list (Q * string);
  zoneMap : list (Q * string)
}.

Section Facets.

Variable StringToNumber : string -> num.
Variable NumberToString : Q -> string.
(** [a.localeCompare(b)]. *)
Variable localeCompare : string -> string -> Z.

Local Abbreviation toNum := (toNumber StringToNumber NumberToString).

Definition region_label (raw : list (string * json)) (regionId : Q) : string :=
  match extractLabel raw ["region_name"; "region"; "county"] with
  | Some l => l
  | None => "Județ #" ++ NumberToString regionId
  end.

Definition zone_label (raw : list (string * json)) (zoneId : Q) : string :=
  match extractLabel raw ["zone_name"; "zone"] with
  | Some l => l
  | None => "Zonă #" ++ NumberToString zoneId
  end.

(** One iteration of [leads.forEach] (lines 110-135). *)
Definition facet_step (st : FacetState) (lead : Lead) : FacetState :=
  let raw := raw_of lead in
  let propertyType := toNum (obj_get raw "property_type") in
  let pts :=
    match propertyType with
    | Some q => set_add (propertyTypeSet st) q
    | None => propertyTypeSet st
    end in
  let rid := toNum (obj_get raw "region_obj_id") in
  let rm :=
    match rid with
    | Some q =>
        let l := region_label raw q in
        if map_has (regionMap st) q then regionMap st else app (regionMap st) [(q, l)]
    | None => regionMap st
    end in
  let zid := toNum (obj_get raw "zone_id") in
  let zm :=
    match zid with
    | Some q =>
        let l := zone_label raw q in
        if map_has (zoneMap st) q then zoneMap st else app (zoneMap st) [(q, l)]
    | None => zoneMap st
    end in
  {| propertyTypeSet := pts; regionMap := rm; zoneMap := zm |}.

Definition facet_scan (leads : list Lead) : FacetState :=
  fold_left facet_step leads {| propertyTypeSet := []; regionMap := []; zoneMap := [] |}.

(** [mapToOptions] (lines 144-147). *)
Definition mapToOptions (m : list (Q * string)) : list OptionItem :=
  map (fun e => {| value := fst e; label := snd e |})
      (js_sort (fun a b => localeCompare (snd a) (snd b)) m).

(** [deriveFilterOptions] (lines 105-154). *)
Definition deriveFilterOptions (leads : list Lead) : FilterOptions :=
  let st := facet_scan leads in
  let propertyTypes :=
    match propertyTypeSet st with
    | [] => PROPERTY_TYPE_OPTIONS
    | _ => js_filter (fun o => set_has (propertyTypeSet st) (value o)) PROPERTY_TYPE_OPTIONS
    end in
  {| optPropertyTypes := propertyTypes;
     regions := mapToOptions (regionMap st);
     zones := mapToOptions (zoneMap st) |}.

End Facets.

(** ** Calendar arithmetic and date-fns formatting

    Time values are milliseconds since the epoch; the local time zone is
    taken to be UTC, so a local calendar day is a block of 86400000 ms. *)

Open Scope Z_scope.

Definition ms_per_day : Z := 86400000.

Definition day_of (t : Z) : Z := Z.div t ms_per_day.

(** Days since 1970-01-01 to the proleptic Gregorian (year, month, day),
    year 0 being 1 BC. *)
Definition civil_from_days (days : Z) : Z * Z * Z :=
  let z := days + 719468 in
  let era := Z.div z 146097 in
  let doe := z - era * 146097 in
  let yoe := Z.div (doe - Z.div doe 1460 + Z.div doe 36524 - Z.div doe 146096) 365 in
  let y := yoe + era * 400 in
  let doy := doe - (365 * yoe + Z.div yoe 4 - Z.div yoe 100) in
  let mp := Z.div (5 * doy + 2) 153 in
  let d := doy - Z.div (153 * mp + 2) 5 + 1 in
  let m := if Z.ltb mp 10 then mp + 3 else mp - 9 in
  ((if Z.leb m 2 then y + 1 else y), m, d).

Definition days_from_civil (y m d : Z) : Z :=
  let y' := if Z.leb m 2 then y - 1 else y in
  let era := Z.div y' 400 in
  let yoe := y' - era * 400 in
  let mp := if Z.ltb 2 m then m - 3 else m + 9 in
  let doy := Z.div (153 * mp + 2) 5 + d - 1 in
  let doe := yoe * 365 + Z.div yoe 4 - Z.div yoe 100 + doy in
  era * 146097 + doe - 719468.

Definition year_of (t : Z) : Z := let '(y, _, _) := civil_from_days (day_of t) in y.

(** Decimal digits of a non-negative integer. *)
Fixpoint digits_aux (fuel : nat) (n : Z) (acc : string) : string :=
  match fuel with
  | O => acc
  | S f =>
      let acc' := String (ascii_of_nat (48 + Z.to_nat (Z.modulo n 10))) acc in
      if Z.ltb n 10 then acc' else digits_aux f (Z.div n 10) acc'
  end.

Definition decimal (n : Z) : string :=
  match n with
  | Z0 => "0"
  | Zpos p => digits_aux (Pos.size_nat p) n ""
  | Zneg p => "-" ++ digits_aux (Pos.size_nat p) (Zpos p) ""
  end.

(** date-fns [addLeadingZeros]. *)
Fixpoint zeros (n : nat) : string :=
  match n with O => "" | S k => String "0" (zeros k) end.

Definition addLeadingZeros (n : Z) (targetLength : nat) : string :=
  let sign := if Z.ltb n 0 then "-" else "" in
  let s := decimal (Z.abs n) in
  sign ++ zeros (targetLength - String.length s) ++ s.

Definition month_abbrev (m : Z) : string :=
  match m with
  | 1 => "Jan" | 2 => "Feb" | 3 => "Mar" | 4 => "Apr" | 5 => "May" | 6 => "Jun"
  | 7 => "Jul" | 8 => "Aug" | 9 => "Sep" | 10 => "Oct" | 11 => "Nov" | _ => "Dec"
  end%Z.

Inductive js_error : Type := RangeError (msg : string).

Inductive result (A : Type) : Type :=
  | Ok (a : A)
  | Throw (e : js_error).
Arguments Ok {A} a.
Arguments Throw {A} e.

Inductive DayPattern : Type := Pat_d_MMM | Pat_d_MMM_yyyy.

(** date-fns [format] with the patterns [d MMM] and [d MMM yyyy]; the
    [y] token prints the era year ([1 - y] for years up to 0, so 1 BC is
    [0001]).  An Invalid Date makes [format] throw. *)
Definition format (date : option Z) (pattern : DayPattern) : result string :=
  match date with
  | None => Throw (RangeError "Invalid time value")
  | Some t =>
      let '(y, m, d) := civil_from_days (day_of t) in
      let dm := decimal d ++ " " ++ month_abbrev m in
      match pattern with
      | Pat_d_MMM => Ok dm
      | Pat_d_MMM_yyyy =>
          let eraYear := if Z.ltb 0 y then y else 1 - y in
          Ok (dm ++ " " ++ addLeadingZeros eraYear 4)
      end
  end.

(** date-fns [differenceInCalendarDays(left, right)] ([None]: NaN). *)
Definition differenceInCalendarDays (left right : option Z) : option Z :=
  match left, right with
  | Some a, Some b => Some (day_of a - day_of b)
  | _, _ => None
  end.

(** date-fns [isSameYear]. *)
Definition isSameYear (left right : option Z) : bool :=
  match left, right with
  | Some a, Some b => Z.eqb (year_of a) (year_of b)
  | _, _ => false
  end.

Definition opt_Z_eqb (x : option Z) (n : Z) : bool :=
  match x with Some a => Z.eqb a n | None => false end.

(** [LeadGroup] (leads.ts lines 6-9). *)
Record LeadGroup : Type := { group_label : string; group_leads : list Lead }.

(** [Map<string, Lead[]>] in insertion order: [get], then [push] into the
    found bucket or [set] a new one at the end. *)
Fixpoint bucket_add (m : list (string * list Lead)) (k : string) (lead : Lead)
  : list (string * list Lead) :=
  match m with
  | [] => [(k, [lead])]
  | (k', b) :: rest =>
      if String.eqb k' k then (k', app b [lead]) :: rest
      else (k', b) :: bucket_add rest k lead
  end.

Section Grouping.

(** date-fns [parseISO(s).getTime()] ([None]: an Invalid Date; parseISO
    does not throw). *)
Variable parseISO : string -> option Z.
(** [TODAY.getTime()] for [const TODAY = new Date()] (dates.ts line 8). *)
Variable today : Z.

(** [ensureDate] (dates.ts lines 10-18) on a string: [None] is [null],
    [Some None] an Invalid Date. *)
Definition ensureDate (value : string) : option (option Z) :=
  if String.eqb value "" then None else Some (parseISO value).

(** [formatDayHeader] (dates.ts lines 20-35). *)
Definition formatDayHeader (value : string) : result string :=
  match ensureDate value with
  | None => Ok "Unknown date"
  | Some date =>
      if opt_Z_eqb (differenceInCalendarDays (Some today) date) 0 then Ok "Today"
      else if opt_Z_eqb (differenceInCalendarDays (Some today) date) 1 then Ok "Yesterday"
      else
        let pattern := if isSameYear date (Some today) then Pat_d_MMM else Pat_d_MMM_yyyy in
        format date pattern
  end.

(** [parseISO(a.date_added).getTime()]. *)
Definition added_time (lead : Lead) : option Z := parseISO (date_added lead).

(** The comparator of lines 12-16, [bTime - aTime], with a NaN
    difference read as [+0]. *)
Definition date_added_cmp (a b : Lead) : Z :=
  match added_time b, added_time a with
  | Some bt, Some at_ => bt - at_
  | _, _ => 0
  end.

(** The [for (const lead of sorted)] loop (lines 20-28). *)
Fixpoint group_loop (m : list (string * list Lead)) (xs : list Lead)
  : result (list (string * list Lead)) :=
  match xs with
  | [] => Ok m
  | lead :: rest =>
      match formatDayHeader (date_added lead) with
      | Throw e => Throw e
      | Ok lbl => group_loop (bucket_add m lbl lead) rest
      end
  end.

(** [groupByDateAdded] (leads.ts lines 11-34). *)
Definition groupByDateAdded (leads : list Lead) : result (list LeadGroup) :=
  let sorted := js_sort date_added_cmp leads in
  match group_loop [] sorted with
  | Throw e => Throw e
  | Ok m => Ok (map (fun e => {| group_label := fst e; group_leads := snd e |}) m)
  end.

End Grouping.

(** ** Bulk send of the lead queue page ([handleBulkSend], dates.ts
    lines 217-263) *)

Inductive Tone : Type := ToneInfo | ToneSuccess | ToneError.

Record Banner : Type := { tone : Tone; message : string }.

(** What the handler does to the outside world, in order: one
    [sendWhatsApp] call per id with its outcome ([true]: resolved), and
    the leads refresh [mutate()]. *)
Inductive QueueEffect : Type :=
  | SendWhatsApp (id : string) (ok : bool)
  | RefreshLeads.

Record Dashboard : Type := {
  multiSelectMode : bool;
  selectedIds : list string;
  pendingIds : list string;
  banner : option Banner;
  queue_log : list QueueEffect
}.

(** [next.add(id)] on a [Set<string>]. *)
Definition str_set_add (s : list string) (x : string) : list string :=
  if existsb (String.eqb x) s then s else app s [x].

(** The banner of lines 250-262. *)
Definition bulk_banner (successCount failureCount : nat) : Banner :=
  if Nat.eqb failureCount 0 then
    {| tone := ToneSuccess;
       message := "Sent " ++ decimal (Z.of_nat successCount) ++ " WhatsApp message" ++
                  (if Nat.eqb successCount 1 then "" else "s") ++ "." |}
  else
    {| tone := ToneError;
       message := "Sent " ++ decimal (Z.of_nat successCount) ++ " messages, " ++
                  decimal (Z.of_nat failureCount) ++ " failed." |}.

Section Bulk.

(** The outcome of [await sendWhatsApp(id)]: [true] when it resolves,
    [false] when it rejects; it may depend on everything sent before. *)
Variable sendWhatsApp : list QueueEffect -> string -> bool.

(** The [for (const id of ids)] loop with its [try]/[catch]
    (lines 233-240). *)
Fixpoint send_loop (ids : list string) (successCount failureCount : nat)
    (log : list QueueEffect) : nat * nat * list QueueEffect :=
  match ids with
  | [] => (successCount, failureCount, log)
  | id :: rest =>
      let ok := sendWhatsApp log id in
      send_loop rest
        (if ok then S successCount else successCount)
        (if ok then failureCount else S failureCount)
        (app log [SendWhatsApp id ok])
  end.

(** [handleBulkSend].  The selection is a [Set<string>], kept as a list
    in insertion order; [mutate()] of SWR resolves (a failing
    revalidation is recorded as an SWR error, not rethrown). *)
Definition handleBulkSend (st : Dashboard) : Dashboard :=
  match selectedIds st with
  | [] => st
  | _ =>
      let ids := selectedIds st in
      let st1 := {| multiSelectMode := multiSelectMode st;
                    selectedIds := selectedIds st;
                    pendingIds := fold_left str_set_add ids (pendingIds st);
                    banner := None;
                    queue_log := queue_log st |} in
      let '(successCount, failureCount, log1) := send_loop ids 0 0 (queue_log st1) in
      let log2 := if Nat.ltb 0 successCount then app log1 [RefreshLeads] else log1 in
      {| multiSelectMode := false;
         selectedIds := [];
         pendingIds := [];
         banner := Some (bulk_banner successCount failureCount);
         queue_log := log2 |}
  end.

End Bulk.

(** ** Reply send of the conversation panel ([handleSend], login.tsx
    lines 158-177) *)

Inductive Direction : Type := Inbound | Outbound.

Record ConversationMessage : Type := {
  msg_id : option string;
  direction : Direction;
  msg_text : string;
  message_type : string;
  timestamp : string;
  msg_status : option string
}.

Inductive PanelEffect : Type :=
  | ReplyCall (propertyId text : string)
  | MessagesRefresh
  | LeadsRefresh.

(** How an awaited call settles: resolved, rejected with an [Error]
    carrying a message, or rejected with another value. *)
Inductive CallOutcome : Type :=
  | Resolved
  | RejectedWithError (msg : string)
  | RejectedWithValue.

Record Panel : Type := {
  draft : string;
  sendError : option string;
  messages : list ConversationMessage;
  panel_log : list PanelEffect
}.

Section Reply.

(** [await sendLeadReply(id, text)]. *)
Variable sendLeadReply : list PanelEffect -> string -> string -> CallOutcome.
(** What the revalidation [mutate()] fetches ([None]: the fetch failed
    and SWR keeps its data). *)
Variable fetchLeadMessages : list PanelEffect -> option (list ConversationMessage).

Definition handleSend (propertyId : string) (st : Panel) : Panel :=
  let trimmed := js_trim (draft st) in
  if String.eqb trimmed "" then st
  else
    let st1 := {| draft := draft st; sendError := None;
                  messages := messages st; panel_log := panel_log st |} in
    let log1 := app (panel_log st1) [ReplyCall propertyId trimmed] in
    match sendLeadReply (panel_log st1) propertyId trimmed with
    | Resolved =>
        let log2 := app log1 [MessagesRefresh] in
        let msgs := match fetchLeadMessages log2 with
                    | Some ms => ms
                    | None => messages st1
                    end in
        {| draft := ""; sendError := None; messages := msgs;
           panel_log := app log2 [LeadsRefresh] |}
    | RejectedWithError msg =>
        {| draft := draft st1; sendError := Some msg;
           messages := messages st1; panel_log := log1 |}
    | RejectedWithValue =>
        {| draft := draft st1;
           sendError := Some "Failed to send message. Please try again.";
           messages := messages st1; panel_log := log1 |}
    end.

End Reply.

(** ** Grouping by last outreach ([groupByLastOutreach], leads.ts
    lines 297-329) *)

(** [entries[entries.length - 1]] ([None]: [undefined]). *)
Fixpoint last_opt {A : Type} (l : list A) : option A :=
  match l with
  | [] => None
  | [x] => Some x
  | _ :: rest => last_opt rest
  end.

Section Outreach.

Variable parseISO : string -> option Z.
Variable today : Z.

(** [last?.date ?? lead.date_added], the string both the comparator
    (lines 299-305) and the loop (lines 312-314) read. *)
Definition outreach_key (lead : Lead) : string :=
  match last_opt (outreach_history lead) with
  | Some e => match entry_date e with Some d => d | None => date_added lead end
  | None => date_added lead
  end.

(** [aDate.getTime()] of the comparator. *)
Definition outreach_time (lead : Lead) : option Z := parseISO (outreach_key lead).

(** The comparator of lines 298-310, [bDate - aDate], a NaN difference
    read as [+0]. *)
Definition outreach_cmp (a b : Lead) : Z :=
  match outreach_time b, outreach_time a with
  | Some bt, Some at_ => bt - at_
  | _, _ => 0
  end.

(** The [for (const lead of sorted)] loop (lines 312-322). *)
Fixpoint outreach_loop (m : list (string * list Lead)) (xs : list Lead)
  : result (list (string * list Lead)) :=
  match xs with
  | [] => Ok m
  | lead :: rest =>
      match formatDayHeader parseISO today (outreach_key lead) with
      | Throw e => Throw e
      | Ok lbl => outreach_loop (bucket_add m lbl lead) rest
      end
  end.

Definition groupByLastOutreach (leads : list Lead) : result (list LeadGroup) :=
  let sorted := js_sort outreach_cmp leads in
  match outreach_loop [] sorted with
  | Throw e => Throw e
  | Ok m => Ok (map (fun e => {| group_label := fst e; group_leads := snd e |}) m)
  end.

End Outreach.

(** ** Time stamps ([formatFullDateTime], [formatMessageTimestamp],
    dates.ts lines 37-58) *)

Inductive TimePattern : Type := Pat_HH_mm | Pat_d_MMM_HH_mm | Pat_d_MMM_yyyy_HH_mm.

(** date-fns [format] with the patterns [HH:mm], [d MMM • HH:mm] and
    [d MMM yyyy • HH:mm], in the same UTC local time as [format]. *)
Definition format_time (date : option Z) (pattern : TimePattern) : result string :=
  match date with
  | None => Throw (RangeError "Invalid time value")
  | Some t =>
      let '(y, m, d) := civil_from_days (day_of t) in
      let msInDay := Z.modulo t ms_per_day in
      let hm := addLeadingZeros (Z.div msInDay 3600000) 2 ++ ":" ++
                addLeadingZeros (Z.div (Z.modulo msInDay 3600000) 60000) 2 in
      let dm := decimal d ++ " " ++ month_abbrev m in
      match pattern with
      | Pat_HH_mm => Ok hm
      | Pat_d_MMM_HH_mm => Ok (dm ++ " • " ++ hm)
      | Pat_d_MMM_yyyy_HH_mm =>
          let eraYear := if Z.ltb 0 y then y else 1 - y in
          Ok (dm ++ " " ++ addLeadingZeros eraYear 4 ++ " • " ++ hm)
      end
  end.

Section Stamps.

Variable parseISO : string -> option Z.

(** [formatFullDateTime] (dates.ts lines 37-44). *)
Definition formatFullDateTime (value : string) : result string :=
  match ensureDate parseISO value with
  | None => Ok "Unknown time"
  | Some date => format_time date Pat_d_MMM_yyyy_HH_mm
  end.

(** [formatMessageTimestamp] (dates.ts lines 46-58); [now] is
    [new Date().getTime()] at the call. *)
Definition formatMessageTimestamp (now : Z) (value : string) : result string :=
  match ensureDate parseISO value with
  | None => Ok ""
  | Some date =>
      if opt_Z_eqb (differenceInCalendarDays (Some now) date) 0 then format_time date Pat_HH_mm
      else
        let pattern := if isSameYear date (Some now) then Pat_d_MMM_HH_mm
                       else Pat_d_MMM_yyyy_HH_mm in
        format_time date pattern
  end.

End Stamps.

(** ** Selection and single send of the lead queue page (dates.ts
    lines 149-215) *)

(** [set.has(x)] on a [Set<string>]. *)
Definition str_set_has (s : list string) (x : string) : bool := existsb (String.eqb x) s.

(** [next.delete(x)] on a [Set<string>], which holds [x] at most once. *)
Definition str_set_delete (s : list string) (x : string) : list string :=
  js_filter (fun y => negb (String.eqb y x)) s.

(** The selection update of lines 149-160: [allowedIds] is the set of the
    [property_id]s of [filteredLeads], [prev] is walked in insertion
    order. *)
Definition prune_selection (filteredLeads : list Lead) (prev : list string) : list string :=
  let allowedIds := fold_left str_set_add (map property_id filteredLeads) [] in
  fold_left (fun next id => if str_set_has allowedIds id then str_set_add next id else next)
    prev [].

(** [toggleSelect] (lines 172-185), on a copy [next] of [prev]. *)
Definition toggleSelect (propertyId : string) (prev : list string) : list string :=
  let next := prev in
  if str_set_has next propertyId then str_set_delete next propertyId
  else str_set_add next propertyId.

Section Single.

(** [await sendWhatsApp(propertyId)]; it may depend on everything sent
    before. *)
Variable sendWhatsApp : list QueueEffect -> string -> CallOutcome.

(** [handleSingleSend] (lines 192-215), its own state updates in order:
    [propertyId] added to the pending set and the banner cleared, then
    the banner of the outcome and, on success, the awaited [mutate()]
    (which resolves, as for the bulk send), then the [finally] removal
    from the pending set. *)
Definition handleSingleSend (propertyId : string) (st : Dashboard) : Dashboard :=
  let pending1 := str_set_add (pendingIds st) propertyId in
  let finish (b : Banner) (log : list QueueEffect) :=
    {| multiSelectMode := multiSelectMode st;
       selectedIds := selectedIds st;
       pendingIds := str_set_delete pending1 propertyId;
       banner := Some b;
       queue_log := log |} in
  match sendWhatsApp (queue_log st) propertyId with
  | Resolved =>
      finish {| tone := ToneSuccess; message := "WhatsApp message sent." |}
             (app (queue_log st) [SendWhatsApp propertyId true; RefreshLeads])
  | RejectedWithError msg =>
      finish {| tone := ToneError; message := msg |}
             (app (queue_log st) [SendWhatsApp propertyId false])
  | RejectedWithValue =>
      finish {| tone := ToneError; message := "Failed to send WhatsApp." |}
             (app (queue_log st) [SendWhatsApp propertyId false])
  end.

End Single.

(** ** The chats page ([src/frontend/src/pages/chats.tsx]) *)

(** [value.includes(sub)] on strings. *)
Fixpoint str_includes (value sub : string) : bool :=
  String.prefix sub value ||
  match value with
  | EmptyString => false
  | String _ rest => str_includes rest sub
  end.

Section Chats.

Variable StringToNumber : string -> num.
Variable NumberToString : Q -> string.
(** [Date.parse(s)], the same as [new Date(s).getTime()] ([None]: NaN). *)
Variable DateParse : string -> option Z.
(** [String.prototype.toLowerCase]. *)
Variable toLowerCase : string -> string.

(** [getActivityTimestamp] (lines 27-34), with [getLastTimelineEntry]
    (lines 22-25); [date_added] is always a string, so the final [null] is
    never reached. *)
Definition getActivityTimestamp (lead : Lead) : option string :=
  match last_message_at lead with
  | Some s => Some s
  | None =>
      match match last_opt (outreach_history lead) with
            | Some e => entry_date e
            | None => None
            end with
      | Some d => Some d
      | None => Some (date_added lead)
      end
  end.

(** [getActivityValue] (lines 36-39): [Date.parse(ts) || 0]. *)
Definition getActivityValue (lead : Lead) : Z :=
  match getActivityTimestamp lead with
  | Some ts =>
      if String.eqb ts "" then 0
      else match DateParse ts with Some v => v | None => 0 end
  | None => 0
  end.

(** [matchesSearch] (lines 67-79). *)
Definition matchesSearch (lead : Lead) (query : string) : bool :=
  if String.eqb query "" then true
  else
    let lowered := toLowerCase query in
    existsb (fun value => str_includes value lowered)
      (flat_map (fun value => match value with
                              | Some s => if String.eqb s "" then [] else [toLowerCase s]
                              | None => []
                              end)
         [Some (lister_name lead); Some (title lead); lister_phone lead;
          Some (display_id lead); last_message_excerpt lead]).

(** [filteredLeads], [searchedLeads] and [sortedLeads] of [ChatsPage]
    (lines 104-118). *)
Definition chats_sortedLeads (leads : list Lead) (appliedFilters : LeadFilters)
    (searchTerm : string) : list Lead :=
  let filteredLeads := applyLeadFilters StringToNumber NumberToString DateParse leads appliedFilters in
  let searchedLeads :=
    if String.eqb searchTerm "" then filteredLeads
    else js_filter (fun lead => matchesSearch lead searchTerm) filteredLeads in
  js_sort (fun a b => getActivityValue b - getActivityValue a) searchedLeads.

End Chats.

(** ** The filter panel ([src/frontend/src/components/LeadFilters.tsx]) *)

(** [togglePropertyType] (lines 61-68) on the draft filters. *)
Definition togglePropertyType (value : Q) (prev : LeadFilters) : LeadFilters :=
  let next :=
    if includes_num (propertyTypes prev) value
    then js_filter (fun type_ => negb (num_eqb type_ (Fin value))) (propertyTypes prev)
    else app (propertyTypes prev) [Fin value] in
  {| propertyTypes := next;
     regionId := regionId prev;
     zoneId := zoneId prev;
     transaction := transaction prev;
     rooms := rooms prev;
     minBudget := minBudget prev;
     maxBudget := maxBudget prev;
     dateFrom := dateFrom prev;
     dateTo := dateTo prev |}.

(** The body of [filteredRegions] and of [filteredZones] (lines 47-59)
    for the options [opts] and the search text [query]. *)
Definition filterOptionsByQuery (toLowerCase : string -> string)
    (opts : list OptionItem) (query : string) : list OptionItem :=
  if String.eqb query "" then opts
  else js_filter (fun option => str_includes (toLowerCase (label option)) (toLowerCase query)) opts.

(** ** Host models used by the examples

    Concrete instances of the host parameters, exact on the inputs the
    examples below use. *)

Definition ascii_digit (c : ascii) : option Z :=
  let n := nat_of_ascii c in
  if Nat.leb 48 n && Nat.leb n 57 then Some (Z.of_nat (n - 48)) else None.

Fixpoint read_digits (k : nat) (cs : list ascii) (acc : Z) : option (Z * list ascii) :=
  match k with
  | O => Some (acc, cs)
  | S k' =>
      match cs with
      | c :: rest =>
          match ascii_digit c with
          | Some d => read_digits k' rest (10 * acc + d)
          | None => None
          end
      | [] => None
      end
  end.

Definition is_leap (y : Z) : bool :=
  (Z.eqb (Z.modulo y 4) 0 && negb (Z.eqb (Z.modulo y 100) 0)) || Z.eqb (Z.modulo y 400) 0.

Definition days_in_month (y m : Z) : Z :=
  match m with
  | 2 => if is_leap y then 29 else 28
  | 4 | 6 | 9 | 11 => 30
  | _ => 31
  end.

Definition ascii_is (c : ascii) (n : nat) : bool := Nat.eqb (nat_of_ascii c) n.

(** The time part [THH:mm], [THH:mm:ss], optionally followed by [Z]. *)
Definition parse_time (cs : list ascii) : option Z :=
  match cs with
  | [] => Some 0
  | t :: cs1 =>
      if ascii_is t 84 then
        match read_digits 2 cs1 0 with
        | Some (hh, c :: cs2) =>
            if ascii_is c 58 then
              match read_digits 2 cs2 0 with
              | Some (mm, cs3) =>
                  let finish (ss : Z) (rest : list ascii) :=
                    match rest with
                    | [] => true
                    | [z] => ascii_is z 90
                    | _ => false
                    end && Z.leb hh 23 && Z.leb mm 59 && Z.leb ss 59 in
                  match cs3 with
                  | c' :: cs4 =>
                      if ascii_is c' 58 then
                        match read_digits 2 cs4 0 with
                        | Some (ss, cs5) =>
                            if finish ss cs5 then Some (((hh * 60 + mm) * 60 + ss) * 1000)
                            else None
                        | None => None
                        end
                      else if finish 0 cs3 then Some ((hh * 60 + mm) * 60000) else None
                  | [] => if finish 0 [] then Some ((hh * 60 + mm) * 60000) else None
                  end
              | None => None
              end
            else None
        | _ => None
        end
      else None
  end.

(** [YYYY-MM-DD] with an optional time part, in UTC. *)
Definition parseISO_model (s : string) : option Z :=
  let cs := list_ascii_of_string s in
  match read_digits 4 cs 0 with
  | Some (y, d1 :: cs1) =>
      if ascii_is d1 45 then
        match read_digits 2 cs1 0 with
        | Some (m, d2 :: cs2) =>
            if ascii_is d2 45 then
              match read_digits 2 cs2 0 with
              | Some (d, cs3) =>
                  if Z.leb 1 m && Z.leb m 12 && Z.leb 1 d && Z.leb d (days_in_month y m) then
                    match parse_time cs3 with
                    | Some ms => Some (days_from_civil y m d * ms_per_day + ms)
                    | None => None
                    end
                  else None
              | None => None
              end
            else None
        | _ => None
        end
      else None
  | _ => None
  end.

(** [Number(s)] on optionally signed decimal integers (blank: [0]). *)
Definition StringToNumber_model (s : string) : num :=
  let t := list_ascii_of_string (js_trim s) in
  let digits cs := read_digits (length cs) cs 0 in
  match t with
  | [] => Fin 0
  | c :: rest =>
      if ascii_is c 45 then
        match rest with
        | [] => NaN
        | _ => match digits rest with Some (z, _) => Fin (inject_Z (- z)) | None => NaN end
        end
      else match digits t with Some (z, _) => Fin (inject_Z z) | None => NaN end
  end.

(** [Number.prototype.toString] on integers. *)
Definition NumberToString_model (q : Q) : string := decimal (Qnum q).

Definition lower_ascii (c : ascii) : ascii :=
  let n := nat_of_ascii c in
  if Nat.leb 65 n && Nat.leb n 90 then ascii_of_nat (n + 32) else c.

Fixpoint lower (s : string) : string :=
  match s with
  | EmptyString => EmptyString
  | String c rest => String (lower_ascii c) (lower rest)
  end.

(** A case-insensitive collation. *)
Definition localeCompare_model (a b : string) : Z :=
  match String.compare (lower a) (lower b) with
  | Lt => -1
  | Eq => 0
  | Gt => 1
  end.

(** ** Specification-side definitions *)

(** [l1] is a subsequence of [l2]. *)
Inductive subseq {A : Type} : list A -> list A -> Prop :=
  | subseq_nil : subseq [] []
  | subseq_keep (x : A) (l1 l2 : list A) : subseq l1 l2 -> subseq (x :: l1) (x :: l2)
  | subseq_skip (x : A) (l1 l2 : list A) : subseq l1 l2 -> subseq l1 (x :: l2).

(** [x <= y] on numbers, as the budget clause of the specification words
    it ("value >= minBudget", "value <= maxBudget"). *)
Definition num_leb (x y : num) : bool :=
  if is_nan x || is_nan y then false else negb (num_ltb y x).

(** "within range": value present and (no [minBudget] or value >= it) and
    (no [maxBudget] or value <= it). *)
Definition within_range_spec (filters : LeadFilters) (price : option Q) : bool :=
  match price with
  | None => false
  | Some p =>
      match minBudget filters with Some m => num_leb m (Fin p) | None => true end &&
      match maxBudget filters with Some m => num_leb (Fin p) m | None => true end
  end.

(** A budget bound that is not NaN (the panel builds bounds with
    [Number] of a number input, which is never NaN). *)
Definition bound_not_nan (b : option num) : bool :=
  match b with Some NaN => false | _ => true end.

(** The [sendWhatsApp] effects of a run over [ids] with the given
    outcomes. *)
Definition send_effects (ids : list string) (outcomes : list bool) : list QueueEffect :=
  map (fun p => SendWhatsApp (fst p) (snd p)) (combine ids outcomes).

Definition count_ok (outcomes : list bool) : nat := length (js_filter (fun b => b) outcomes).

Definition count_fail (outcomes : list bool) : nat := length (js_filter negb outcomes).

(** The update of one facet map in [facet_step]: the id read by [key],
    its label [lab] built from [crm_raw], set only for a new id. *)
Definition facet_map_step (key : Lead -> option Q) (lab : list (string * json) -> Q -> string)
    (m : list (Q * string)) (l : Lead) : list (Q * string) :=
  match key l with
  | Some q => if map_has m q then m else app m [(q, lab (raw_of l) q)]
  | None => m
  end.

(** A facet of [deriveFilterOptions] as the contract states it, for the
    id read by [key] and the label [lab] built from a lead's [crm_raw]:
    one option per id; every id of a lead has its option; an option's
    label is the one built from the first lead carrying its id; options
    are in ascending collation order of their labels, and case-insensitive
    ascending order when the collation refines it. *)
Definition facet_ok (key : Lead -> option Q) (lab : list (string * json) -> Q -> string)
    (cmp : string -> string -> Z) (leads : list Lead) (opts : list OptionItem) : Prop :=
  NoDup (map (fun o => Qred (value o)) opts) /\
  (forall l q, In l leads -> key l = Some q ->
     exists o, In o opts /\ Qeq_bool (value o) q = true) /\
  (forall o, In o opts ->
     exists pre l post, leads = app pre (l :: post) /\ key l = Some (value o) /\
       label o = lab (raw_of l) (value o) /\
       (forall l' q', In l' pre -> key l' = Some q' -> Qeq_bool q' (value o) = false)) /\
  Sorted (fun o1 o2 => (cmp (label o1) (label o2) <= 0)%Z) opts /\
  ((forall a b, String.compare (lower b) (lower a) = Lt -> (0 < cmp a b)%Z) ->
   Sorted (fun o1 o2 => String.compare (lower (label o2)) (lower (label o1)) <> Lt) opts).

(** Consecutive equal labels: whenever the label of an element occurs
    again later, it occurs again right after it. *)
Fixpoint labels_chunked {A : Type} (lab : A -> string) (xs : list A) : bool :=
  match xs with
  | [] => true
  | x :: rest =>
      labels_chunked lab rest &&
      (if existsb (fun y => String.eqb (lab y) (lab x)) rest then
         match rest with
         | y :: _ => String.eqb (lab y) (lab x)
         | [] => false
         end
       else true)
  end.

(** The time of the first (most recent) member of a bucket. *)
Definition head_time (T : Lead -> Z) (e : string * list Lead) : option Z :=
  match snd e with h :: _ => Some (T h) | [] => None end.

(** A bucket built by the grouping loop: non-empty, every member carries
    the bucket's label, and the first member is the most recent. *)
Definition bucket_wf (T : Lead -> Z) (lab : Lead -> string) (e : string * list Lead) : Prop :=
  exists h rest, snd e = h :: rest /\
    Forall (fun y => lab y = fst e) (h :: rest) /\
    Forall (fun y => (T y <= T h)%Z) rest.

(** Bucket [e1] comes strictly before bucket [e2] in recency. *)
Definition bucket_precedes (T : Lead -> Z) (e1 e2 : string * list Lead) : Prop :=
  match head_time T e1, head_time T e2 with
  | Some x, Some y => (y < x)%Z
  | _, _ => False
  end.

Definition result_str_eqb (a b : result string) : bool :=
  match a, b with
  | Ok x, Ok y => String.eqb x y
  | _, _ => false
  end.

Definition option_Z_eqb (a b : option Z) : bool :=
  match a, b with
  | Some x, Some y => Z.eqb x y
  | None, None => true
  | _, _ => false
  end.

Section GroupingSpec.

Variable parseISO : string -> option Z.
Variable today : Z.

(** Every [date_added] parses to a valid instant (date-fns rejects the
    empty string). *)
Definition all_dates_parse (leads : list Lead) : bool :=
  forallb (fun l => negb (String.eqb (date_added l) "") &&
                    match parseISO (date_added l) with Some _ => true | None => false end)
          leads.

(** [a] was added at the same instant as [b] or later. *)
Definition later_or_same (a b : Lead) : Prop :=
  match added_time parseISO a, added_time parseISO b with
  | Some x, Some y => (y <= x)%Z
  | _, _ => False
  end.

Definition strictly_later (a b : Lead) : Prop :=
  match added_time parseISO a, added_time parseISO b with
  | Some x, Some y => (y < x)%Z
  | _, _ => False
  end.

(** A returned bucket: non-empty, each member's day label is the
    bucket's label, and its first member is its most recent one. *)
Definition group_ok (g : LeadGroup) : Prop :=
  exists h rest, group_leads g = h :: rest /\
    Forall (fun l => formatDayHeader parseISO today (date_added l) = Ok (group_label g)) (h :: rest) /\
    Forall (later_or_same h) rest.

(** Bucket [g1] comes strictly before [g2]: its most recent member is
    strictly more recent. *)
Definition group_before (g1 g2 : LeadGroup) : Prop :=
  match group_leads g1, group_leads g2 with
  | h1 :: _, h2 :: _ => strictly_later h1 h2
  | _, _ => False
  end.

Definition lead_day (l : Lead) : option Z := option_map day_of (added_time parseISO l).

(** No two distinct calendar days among the leads share a day label. *)
Definition labels_of_distinct_days (leads : list Lead) : bool :=
  forallb (fun a => forallb (fun b =>
     implb (result_str_eqb (formatDayHeader parseISO today (date_added a))
                           (formatDayHeader parseISO today (date_added b)))
           (option_Z_eqb (lead_day a) (lead_day b))) leads) leads.

End GroupingSpec.

(** The single-criterion parts of a filter set: each keeps one criterion
    of [f] (the budget together with the transaction type it reads) and
    resets the others to [DEFAULT_LEAD_FILTERS]. *)
Definition only_propertyTypes (f : LeadFilters) : LeadFilters := {|
  propertyTypes := propertyTypes f; regionId := None; zoneId := None;
  transaction := {| sale := false; rent := false |}; rooms := RoomsAll;
  minBudget := None; maxBudget := None; dateFrom := None; dateTo := None |}.

Definition only_region (f : LeadFilters) : LeadFilters := {|
  propertyTypes := []; regionId := regionId f; zoneId := None;
  transaction := {| sale := false; rent := false |}; rooms := RoomsAll;
  minBudget := None; maxBudget := None; dateFrom := None; dateTo := None |}.

Definition only_zone (f : LeadFilters) : LeadFilters := {|
  propertyTypes := []; regionId := None; zoneId := zoneId f;
  transaction := {| sale := false; rent := false |}; rooms := RoomsAll;
  minBudget := None; maxBudget := None; dateFrom := None; dateTo := None |}.

Definition only_deal (f : LeadFilters) : LeadFilters := {|
  propertyTypes := []; regionId := None; zoneId := None;
  transaction := transaction f; rooms := RoomsAll;
  minBudget := minBudget f; maxBudget := maxBudget f; dateFrom := None; dateTo := None |}.

Definition only_rooms (f : LeadFilters) : LeadFilters := {|
  propertyTypes := []; regionId := None; zoneId := None;
  transaction := {| sale := false; rent := false |}; rooms := rooms f;
  minBudget := None; maxBudget := None; dateFrom := None; dateTo := None |}.

Definition only_dates (f : LeadFilters) : LeadFilters := {|
  propertyTypes := []; regionId := None; zoneId := None;
  transaction := {| sale := false; rent := false |}; rooms := RoomsAll;
  minBudget := None; maxBudget := None; dateFrom := dateFrom f; dateTo := dateTo f |}.

(** [f] with its lower date bound replaced. *)
Definition with_dateFrom (f : LeadFilters) (v : option string) : LeadFilters := {|
  propertyTypes := propertyTypes f; regionId := regionId f; zoneId := zoneId f;
  transaction := transaction f; rooms := rooms f;
  minBudget := minBudget f; maxBudget := maxBudget f; dateFrom := v; dateTo := dateTo f |}.

(** Every lead's last-outreach key is non-empty and parses. *)
Definition outreach_keys_parse (parseISO : string -> option Z) (leads : list Lead) : bool :=
  forallb (fun l => negb (String.eqb (outreach_key l) "") &&
                    match outreach_time parseISO l with Some _ => true | None => false end)
          leads.

(** [a] is at least as recent as [b] under the instant [T]. *)
Definition time_ge (T : Lead -> option Z) (a b : Lead) : Prop :=
  match T a, T b with Some x, Some y => (y <= x)%Z | _, _ => False end.

Definition time_gt (T : Lead -> option Z) (a b : Lead) : Prop :=
  match T a, T b with Some x, Some y => (y < x)%Z | _, _ => False end.

(** The first member of [g1] is strictly more recent than that of [g2]. *)
Definition heads_before (T : Lead -> option Z) (g1 g2 : LeadGroup) : Prop :=
  match group_leads g1, group_leads g2 with
  | h1 :: _, h2 :: _ => time_gt T h1 h2
  | _, _ => False
  end.

(** ** Example inputs *)

Definition example_lead (id date : string) (raw : list (string * json)) : Lead := {|
  property_id := id; display_id := id; title := ""; date_added := date;
  lister_name := ""; lister_phone := None; status := LEAD; outreach_history := [];
  crm_raw := Some raw; last_message_excerpt := None; last_message_at := None;
  unread_count := None |}.

Definition lead_p1 : Lead :=
  example_lead "p1" "2024-01-01"
    [("property_type", JNum 1); ("for_sale", JBool true); ("price_sale", JNum 100000)].

Definition filters_p1 (maxB : Q) : LeadFilters := {|
  propertyTypes := [Fin 1];
  regionId := None;
  zoneId := None;
  transaction := {| sale := true; rent := false |};
  rooms := RoomsAll;
  minBudget := Some (Fin 50000);
  maxBudget := Some (Fin maxB);
  dateFrom := None;
  dateTo := None |}.

Definition queue_three : Dashboard := {|
  multiSelectMode := true;
  selectedIds := ["a"; "b"; "c"];
  pendingIds := [];
  banner := None;
  queue_log := [] |}.

(** A server on which exactly the send for [b] fails. *)
Definition send_fails_on_b (log : list QueueEffect) (id : string) : bool :=
  negb (String.eqb id "b").

Definition lead_region0 : Lead := example_lead "r0" "2024-01-01" [("region_obj_id", JNum 0)].

Definition filters_region0 : LeadFilters := {|
  propertyTypes := [];
  regionId := Some (Fin 0);
  zoneId := None;
  transaction := {| sale := false; rent := false |};
  rooms := RoomsAll;
  minBudget := None;
  maxBudget := None;
  dateFrom := None;
  dateTo := None |}.

(** Leads with repeated region ids, a missing label and mixed case. *)
Definition leads_facets : list Lead :=
  [example_lead "f1" "2024-01-01"
     [("property_type", JNum 3); ("region_obj_id", JNum 12); ("region_name", JStr "cluj");
      ("zone_id", JStr "7")];
   example_lead "f2" "2024-01-02"
     [("property_type", JStr "1"); ("region_obj_id", JNum 12); ("region_name", JStr "Cluj-Napoca")];
   example_lead "f3" "2024-01-03"
     [("region_obj_id", JNum 40); ("region_name", JStr "Bihor"); ("zone_id", JNum 9)];
   example_lead "f4" "2024-01-04" [("region_obj_id", JStr "5"); ("region_name", JStr "  ")]].

(** [TODAY] = 2026-10-14T10:00:00Z. *)
Definition today_example : Z := 1791972000000.

Definition leads_recent : list Lead :=
  [example_lead "n1" "2026-10-14T08:00:00Z" [];
   example_lead "n2" "2026-10-13" [];
   example_lead "n3" "2024-03-01" [];
   example_lead "n4" "2026-10-14T09:30:00Z" []].

(** Dates in year 1 and in year 0 (1 BC). *)
Definition leads_era : list Lead :=
  [example_lead "a" "0001-01-01" [];
   example_lead "b" "0000-06-01" [];
   example_lead "c" "0000-01-01" []].

Definition lead_bad_date : Lead := example_lead "x" "not-a-date" [].

(** A [dateFrom] that is not a calendar date. *)
Definition filters_bad_from : LeadFilters := with_dateFrom DEFAULT_LEAD_FILTERS (Some "2024-13-45").

(** A lead whose property type is none of the eight known ones. *)
Definition lead_type9 : Lead := example_lead "t9" "2024-01-01" [("property_type", JNum 9)].

Definition outreach_entry (d : option string) : OutreachHistoryEntry := {|
  entry_date := d; entry_success := true; entry_note := None |}.

Definition contacted_lead (id date : string) (h : list OutreachHistoryEntry) : Lead := {|
  property_id := id; display_id := id; title := ""; date_added := date;
  lister_name := ""; lister_phone := None; status := REACHED_OUT; outreach_history := h;
  crm_raw := None; last_message_excerpt := None; last_message_at := None;
  unread_count := None |}.

(** Two entries (the last one counts), none, and an entry without a date. *)
Definition leads_outreach : list Lead :=
  [contacted_lead "o1" "2024-01-01"
     [outreach_entry (Some "2026-10-01"); outreach_entry (Some "2026-10-14T09:00:00Z")];
   contacted_lead "o2" "2026-10-13" [];
   contacted_lead "o3" "2024-02-01" [outreach_entry None]].

(** An entry whose date is the empty string. *)
Definition lead_blank_entry : Lead :=
  contacted_lead "o4" "2024-03-01" [outreach_entry (Some "")].

Definition chat_lead (id name : string) (at_ : option string) : Lead := {|
  property_id := id; display_id := id; title := ""; date_added := "2024-01-01";
  lister_name := name; lister_phone := None; status := LEAD; outreach_history := [];
  crm_raw := None; last_message_excerpt := None; last_message_at := at_;
  unread_count := None |}.

(** A chat whose last message time is blank, and two dated ones. *)
Definition leads_chats : list Lead :=
  [chat_lead "c1" "Ana" (Some "");
   chat_lead "c2" "Andrei" (Some "2026-10-14T09:00:00Z");
   chat_lead "c3" "Maria" (Some "2026-10-12")].

(** A region named by a lone no-break space, U+00A0 (the bytes [C2 A0]). *)
Definition lead_nbsp_region : Lead :=
  example_lead "n" "2024-01-01"
    [("region_obj_id", JNum 3);
     ("region_name", JStr (String (ascii_of_nat 194) (String (ascii_of_nat 160) EmptyString)))].

Definition options_regions : list OptionItem :=
  [{| value := 12; label := "Cluj" |}; {| value := 40; label := "Bihor" |};
   {| value := 5; label := "Bistrița" |}].

(** * Proofs *)

Open Scope list_scope.

(** ** Filtering *)

Lemma js_filter_all {A : Type} (p : A -> bool) (l : list A) :
  (forall x, p x = true) -> js_filter p l = l.
Proof.
  intros Hp; induction l as [|x xs IH]; simpl; [reflexivity|].
  rewrite Hp, IH; reflexivity.
Qed.

Lemma js_filter_subseq {A : Type} (p : A -> bool) (l : list A) :
  subseq (js_filter p l) l.
Proof.
  induction l as [|x xs IH]; simpl; [constructor|].
  destruct (p x); constructor; exact IH.
Qed.

Lemma subseq_refl {A : Type} (l : list A) : subseq l l.
Proof. induction l; constructor; assumption. Qed.

Lemma subseq_In {A : Type} (l1 l2 : list A) (x : A) :
  subseq l1 l2 -> In x l1 -> In x l2.
Proof.
  intros Hs; induction Hs as [|y l1 l2 Hs IH|y l1 l2 Hs IH]; simpl; intros Hin.
  - exact Hin.
  - destruct Hin as [<-|Hin]; [left; reflexivity | right; apply IH, Hin].
  - right; apply IH, Hin.
Qed.

Lemma default_filters_match
    (StringToNumber : string -> num) (NumberToString : Q -> string)
    (DateParse : string -> option Z) (lead : Lead) :
  lead_matches StringToNumber NumberToString DateParse DEFAULT_LEAD_FILTERS lead = true.
Proof. reflexivity. Qed.

(** C1: under [DEFAULT_LEAD_FILTERS] every clause is inactive, so
    [applyLeadFilters] returns its input list unchanged, for every input
    collection. *)
Theorem applyLeadFilters_default
    (StringToNumber : string -> num) (NumberToString : Q -> string)
    (DateParse : string -> option Z) (leads : list Lead) :
  applyLeadFilters StringToNumber NumberToString DateParse leads DEFAULT_LEAD_FILTERS = leads.
Proof.
  destruct leads as [|l ls]; [reflexivity|].
  unfold applyLeadFilters.
  apply js_filter_all; intros x; apply default_filters_match.
Qed.

(** C10: for every lead list and every filter specification
    [applyLeadFilters] returns a subsequence of its input: every returned
    lead is an input element, nothing is duplicated or synthesized, and
    the survivors keep their relative order. *)
Theorem applyLeadFilters_subseq
    (StringToNumber : string -> num) (NumberToString : Q -> string)
    (DateParse : string -> option Z) (leads : list Lead) (filters : LeadFilters) :
  subseq (applyLeadFilters StringToNumber NumberToString DateParse leads filters) leads /\
  (forall lead, In lead (applyLeadFilters StringToNumber NumberToString DateParse leads filters) ->
                In lead leads).
Proof.
  assert (Hs : subseq (applyLeadFilters StringToNumber NumberToString DateParse leads filters) leads).
  { destruct leads as [|l ls]; [constructor|].
    unfold applyLeadFilters; apply js_filter_subseq. }
  split; [exact Hs|].
  intros lead; apply subseq_In, Hs.
Qed.

Lemma withinRange_spec (filters : LeadFilters) (price : option Q) :
  bound_not_nan (minBudget filters) = true ->
  bound_not_nan (maxBudget filters) = true ->
  withinRange filters price = within_range_spec filters price.
Proof.
  intros Hmin Hmax.
  destruct price as [p|]; [|reflexivity].
  unfold withinRange, within_range_spec, num_leb.
  destruct (minBudget filters) as [[m| | |]|], (maxBudget filters) as [[n| | |]|];
    simpl in *; try discriminate; try reflexivity;
    repeat match goal with |- context [if ?b then _ else _] => destruct b end;
    reflexivity.
Qed.

(** C2: the budget clause of [applyLeadFilters], for bounds that are not
    NaN, is the specification's: inactive without bounds; otherwise the
    sale price must be within range when only sale is selected, the rent
    price when only rent is selected, and either of them when both or
    neither are selected.  On the scenario lead [p1] the filter with
    bounds [50000..150000] keeps [p1], and with [maxBudget = 90000] it
    returns [[]]. *)
Theorem budget_clause_spec
    (StringToNumber : string -> num) (NumberToString : Q -> string)
    (DateParse : string -> option Z) (filters : LeadFilters) (raw : list (string * json)) :
  bound_not_nan (minBudget filters) = true ->
  bound_not_nan (maxBudget filters) = true ->
  clause_budget StringToNumber NumberToString filters raw =
    (match minBudget filters, maxBudget filters with
     | None, None => true
     | _, _ =>
         let ps := toNumber StringToNumber NumberToString (obj_get raw "price_sale") in
         let pr := toNumber StringToNumber NumberToString (obj_get raw "price_rent") in
         match sale (transaction filters), rent (transaction filters) with
         | true, false => within_range_spec filters ps
         | false, true => within_range_spec filters pr
         | _, _ => within_range_spec filters ps || within_range_spec filters pr
         end
     end) /\
  applyLeadFilters StringToNumber NumberToString DateParse [lead_p1] (filters_p1 150000) = [lead_p1] /\
  applyLeadFilters StringToNumber NumberToString DateParse [lead_p1] (filters_p1 90000) = [].
Proof.
  intros Hmin Hmax.
  split; [|split; reflexivity].
  unfold clause_budget.
  rewrite !withinRange_spec by assumption.
  destruct (minBudget filters), (maxBudget filters);
    destruct (sale (transaction filters)), (rent (transaction filters)); reflexivity.
Qed.

Lemma budget_clause_spec_witness :
  bound_not_nan (minBudget (filters_p1 150000)) = true /\
  bound_not_nan (maxBudget (filters_p1 150000)) = true /\
  applyLeadFilters StringToNumber_model NumberToString_model parseISO_model
    [lead_p1] (filters_p1 150000) = [lead_p1].
Proof.
  split; [reflexivity|split; [reflexivity|]].
  destruct (budget_clause_spec StringToNumber_model NumberToString_model parseISO_model
              (filters_p1 150000) (raw_of lead_p1) eq_refl eq_refl) as [_ [H _]].
  exact H.
Defined.

(** C6 (the code contradicts the claim): a lead whose
    [crm_raw.region_obj_id] is [0] fails the region clause for
    [filters.regionId = 0], because [!regionId] rejects the finite id
    [0]; [deriveFilterOptions] still offers region [0] as an option. *)
Theorem region_zero_rejected
    (StringToNumber : string -> num) (NumberToString : Q -> string)
    (DateParse : string -> option Z) (localeCompare : string -> string -> Z) :
  toNumber StringToNumber NumberToString (obj_get (raw_of lead_region0) "region_obj_id") = Some 0%Q /\
  applyLeadFilters StringToNumber NumberToString DateParse [lead_region0] filters_region0 = [] /\
  map value (regions (deriveFilterOptions StringToNumber NumberToString localeCompare [lead_region0]))
    = [0%Q].
Proof. split; [reflexivity|split; reflexivity]. Qed.

(** ** Bulk send *)

Lemma send_loop_spec (sendWhatsApp : list QueueEffect -> string -> bool) (ids : list string) :
  forall successCount failureCount log,
  exists outcomes,
    length outcomes = length ids /\
    (forall i, (i < length ids)%nat ->
       nth i outcomes false =
       sendWhatsApp (log ++ firstn i (send_effects ids outcomes)) (nth i ids "")) /\
    send_loop sendWhatsApp ids successCount failureCount log =
      ((successCount + count_ok outcomes)%nat, (failureCount + count_fail outcomes)%nat,
       log ++ send_effects ids outcomes).
Proof.
  induction ids as [|id rest IH]; intros s f log; simpl.
  - exists []; split; [reflexivity|split].
    + intros i Hi; simpl in Hi; lia.
    + unfold count_ok, count_fail, send_effects; simpl.
      rewrite app_nil_r, !Nat.add_0_r; reflexivity.
  - set (ok := sendWhatsApp log id).
    destruct (IH (if ok then S s else s) (if ok then f else S f)
                 (log ++ [SendWhatsApp id ok])) as (outs & Hlen & Hnth & Hrun).
    exists (ok :: outs); split; [simpl; rewrite Hlen; reflexivity|split].
    + intros [|i] Hi; simpl.
      * rewrite app_nil_r; reflexivity.
      * rewrite Hnth by (simpl in Hi; lia).
        unfold send_effects; simpl.
        rewrite <- app_assoc; reflexivity.
    + rewrite Hrun.
      unfold count_ok, count_fail, send_effects; simpl.
      rewrite <- app_assoc.
      destruct ok; simpl; f_equal; f_equal; lia.
Qed.

(** C3: on a non-empty selection the bulk send issues one [sendWhatsApp]
    per selected id, in order, each attempt made whatever the earlier
    outcomes were (its outcome is the server's answer at that point of the
    run); the banner reports the numbers of resolved and rejected
    attempts; exactly one leads refresh follows the sends when at least
    one succeeded and none otherwise; the pending set and the selection
    are empty afterwards.  On an empty selection the handler returns
    without doing anything. *)
Theorem handleBulkSend_spec (sendWhatsApp : list QueueEffect -> string -> bool)
    (st : Dashboard) :
  match selectedIds st with
  | [] => handleBulkSend sendWhatsApp st = st
  | ids =>
      exists outcomes,
        length outcomes = length ids /\
        (forall i, (i < length ids)%nat ->
           nth i outcomes false =
           sendWhatsApp (queue_log st ++ firstn i (send_effects ids outcomes)) (nth i ids "")) /\
        queue_log (handleBulkSend sendWhatsApp st) =
          queue_log st ++ send_effects ids outcomes ++
          (if Nat.ltb 0 (count_ok outcomes) then [RefreshLeads] else []) /\
        banner (handleBulkSend sendWhatsApp st) =
          Some (bulk_banner (count_ok outcomes) (count_fail outcomes)) /\
        pendingIds (handleBulkSend sendWhatsApp st) = [] /\
        selectedIds (handleBulkSend sendWhatsApp st) = [] /\
        multiSelectMode (handleBulkSend sendWhatsApp st) = false
  end.
Proof.
  unfold handleBulkSend.
  destruct (selectedIds st) as [|id rest] eqn:Hsel; [reflexivity|].
  destruct (send_loop_spec sendWhatsApp (id :: rest) 0 0 (queue_log st))
    as (outs & Hlen & Hnth & Hrun).
  exists outs; split; [exact Hlen|split; [exact Hnth|]].
  cbn [queue_log]; rewrite Hrun; simpl.
  split; [|repeat split].
  destruct (Nat.ltb 0 (count_ok outs)); [rewrite <- app_assoc|rewrite app_nil_r]; reflexivity.
Qed.

(** The scenario of the specification: three ids, the second failing. *)
Lemma handleBulkSend_three_ids :
  handleBulkSend send_fails_on_b queue_three = {|
    multiSelectMode := false;
    selectedIds := [];
    pendingIds := [];
    banner := Some {| tone := ToneError; message := "Sent 2 messages, 1 failed." |};
    queue_log := [SendWhatsApp "a" true; SendWhatsApp "b" false; SendWhatsApp "c" true;
                  RefreshLeads] |}.
Proof. reflexivity. Qed.

(** ** Reply send *)

(** C8: on a blank or whitespace-only draft [handleSend] changes nothing
    and calls nothing; otherwise it sends the trimmed draft, and the
    earlier send error is gone: on success the draft is cleared, the
    error is empty and the message-stream refresh and the lead-list
    refresh follow the call; on failure the draft and the message list
    are unchanged and the error of this attempt is set. *)
Theorem handleSend_spec
    (sendLeadReply : list PanelEffect -> string -> string -> CallOutcome)
    (fetchLeadMessages : list PanelEffect -> option (list ConversationMessage))
    (propertyId : string) (st : Panel) :
  let st' := handleSend sendLeadReply fetchLeadMessages propertyId st in
  let text := js_trim (draft st) in
  if String.eqb text "" then st' = st
  else
    match sendLeadReply (panel_log st) propertyId text with
    | Resolved =>
        draft st' = "" /\ sendError st' = None /\
        panel_log st' = panel_log st ++ [ReplyCall propertyId text; MessagesRefresh; LeadsRefresh]
    | RejectedWithError msg =>
        draft st' = draft st /\ sendError st' = Some msg /\ messages st' = messages st /\
        panel_log st' = panel_log st ++ [ReplyCall propertyId text]
    | RejectedWithValue =>
        draft st' = draft st /\
        sendError st' = Some "Failed to send message. Please try again." /\
        messages st' = messages st /\
        panel_log st' = panel_log st ++ [ReplyCall propertyId text]
    end.
Proof.
  cbv zeta; unfold handleSend.
  destruct (String.eqb (js_trim (draft st)) "") eqn:Hblank; [reflexivity|].
  simpl.
  destruct (sendLeadReply (panel_log st) propertyId (js_trim (draft st))); simpl;
    repeat split; rewrite <- ?app_assoc; reflexivity.
Qed.

(** ** Sorting *)

Lemma insert_by_perm {A : Type} (cmp : A -> A -> Z) (x : A) (l : list A) :
  Permutation (insert_by cmp x l) (x :: l).
Proof.
  induction l as [|y l IH]; simpl; [reflexivity|].
  destruct (Z.ltb 0 (cmp y x)); [reflexivity|].
  transitivity (y :: x :: l); [constructor; exact IH | apply perm_swap].
Qed.

Lemma fold_insert_perm {A : Type} (cmp : A -> A -> Z) (l acc : list A) :
  Permutation (fold_left (fun acc x => insert_by cmp x acc) l acc) (l ++ acc).
Proof.
  revert acc; induction l as [|x l IH]; intros acc; simpl; [reflexivity|].
  transitivity (l ++ insert_by cmp x acc); [apply IH|].
  transitivity (l ++ x :: acc); [apply Permutation_app_head, insert_by_perm|].
  apply Permutation_sym, Permutation_middle.
Qed.

Lemma js_sort_perm {A : Type} (cmp : A -> A -> Z) (l : list A) :
  Permutation (js_sort cmp l) l.
Proof.
  unfold js_sort; rewrite <- (app_nil_r l) at 2; apply fold_insert_perm.
Qed.

Lemma insert_by_ext {A : Type} (cmp1 cmp2 : A -> A -> Z) (x : A) (l : list A) :
  (forall y, In y l -> cmp1 y x = cmp2 y x) ->
  insert_by cmp1 x l = insert_by cmp2 x l.
Proof.
  induction l as [|y l IH]; intros Heq; simpl; [reflexivity|].
  rewrite (Heq y (or_introl eq_refl)).
  destruct (Z.ltb 0 (cmp2 y x)); [reflexivity|].
  rewrite IH; [reflexivity|intros z Hz; apply Heq; right; exact Hz].
Qed.

Lemma js_sort_ext {A : Type} (cmp1 cmp2 : A -> A -> Z) (l : list A) :
  (forall a b, In a l -> In b l -> cmp1 a b = cmp2 a b) ->
  js_sort cmp1 l = js_sort cmp2 l.
Proof.
  intros Heq; unfold js_sort.
  assert (Hgen : forall l0 acc,
    (forall a b, In a (l0 ++ acc) -> In b (l0 ++ acc) -> cmp1 a b = cmp2 a b) ->
    fold_left (fun acc x => insert_by cmp1 x acc) l0 acc =
    fold_left (fun acc x => insert_by cmp2 x acc) l0 acc).
  { induction l0 as [|x l0 IH]; intros acc H; simpl; [reflexivity|].
    rewrite (insert_by_ext cmp1 cmp2 x acc).
    - apply IH; intros a b Ha Hb; apply H;
        [ apply (Permutation_in a (Permutation_sym (Permutation_middle l0 acc x)))
        | apply (Permutation_in b (Permutation_sym (Permutation_middle l0 acc x))) ];
        apply (Permutation_in _ (Permutation_app_head l0 (insert_by_perm cmp2 x acc)));
        assumption.
    - intros y Hy; apply H; apply in_or_app; [right; exact Hy | left; left; reflexivity]. }
  apply Hgen; rewrite app_nil_r; exact Heq.
Qed.

Lemma insert_by_sorted {A : Type} (cmp : A -> A -> Z)
    (Hanti : forall a b, (0 < cmp a b)%Z -> (cmp b a <= 0)%Z) (x : A) (l : list A) :
  Sorted (fun a b => (cmp a b <= 0)%Z) l ->
  Sorted (fun a b => (cmp a b <= 0)%Z) (insert_by cmp x l).
Proof.
  induction l as [|y l IH]; intros Hs; simpl.
  - repeat constructor.
  - destruct (Z.ltb 0 (cmp y x)) eqn:E.
    + apply Z.ltb_lt in E.
      constructor; [exact Hs|constructor; apply Hanti, E].
    + apply Z.ltb_ge in E.
      apply Sorted_inv in Hs; destruct Hs as [Hs Hhd].
      constructor; [apply IH, Hs|].
      destruct l as [|z l]; simpl.
      * constructor; exact E.
      * destruct (Z.ltb 0 (cmp z x)); constructor; [exact E|].
        apply HdRel_inv in Hhd; exact Hhd.
Qed.

Lemma js_sort_sorted {A : Type} (cmp : A -> A -> Z)
    (Hanti : forall a b, (0 < cmp a b)%Z -> (cmp b a <= 0)%Z) (l : list A) :
  Sorted (fun a b => (cmp a b <= 0)%Z) (js_sort cmp l).
Proof.
  unfold js_sort.
  assert (Hgen : forall l0 acc,
    Sorted (fun a b => (cmp a b <= 0)%Z) acc ->
    Sorted (fun a b => (cmp a b <= 0)%Z) (fold_left (fun acc x => insert_by cmp x acc) l0 acc)).
  { induction l0 as [|x l0 IH]; intros acc H; simpl; [exact H|].
    apply IH, insert_by_sorted; assumption. }
  apply Hgen; constructor.
Qed.

(** ** The bucket map of the grouping loop *)

Lemma bucket_add_found (m : list (string * list Lead)) (k : string) (x : Lead) :
  In k (map fst m) ->
  exists m1 b m2, m = m1 ++ (k, b) :: m2 /\ ~ In k (map fst m1) /\
    bucket_add m k x = m1 ++ (k, b ++ [x]) :: m2.
Proof.
  induction m as [|[k' b'] m IH]; simpl; intros Hin; [contradiction|].
  destruct (String.eqb k' k) eqn:E.
  - apply String.eqb_eq in E; subst k'.
    exists [], b', m; simpl; split; [reflexivity|split; [intros []|reflexivity]].
  - apply String.eqb_neq in E.
    destruct Hin as [Hin|Hin]; [contradiction|].
    destruct (IH Hin) as (m1 & b & m2 & -> & Hn & Heq).
    exists ((k', b') :: m1), b, m2; simpl; rewrite Heq.
    split; [reflexivity|split; [intros [H|H]; [congruence|contradiction]|reflexivity]].
Qed.

Lemma bucket_add_new (m : list (string * list Lead)) (k : string) (x : Lead) :
  ~ In k (map fst m) -> bucket_add m k x = m ++ [(k, [x])].
Proof.
  induction m as [|[k' b'] m IH]; simpl; intros Hn; [reflexivity|].
  destruct (String.eqb k' k) eqn:E.
  - apply String.eqb_eq in E; subst; exfalso; apply Hn; left; reflexivity.
  - rewrite IH; [reflexivity|intros H; apply Hn; right; exact H].
Qed.

Lemma StronglySorted_snoc {A : Type} (R : A -> A -> Prop) (l : list A) (a : A) :
  StronglySorted R l -> (forall e, In e l -> R e a) -> StronglySorted R (l ++ [a]).
Proof.
  induction l as [|y l IH]; simpl; intros Hs Hr; [repeat constructor|].
  apply StronglySorted_inv in Hs as [Hs Hf].
  constructor; [apply IH; auto|].
  apply Forall_app; split; [exact Hf|constructor; [apply Hr; left; reflexivity|constructor]].
Qed.

Lemma StronglySorted_map_eq {A B : Type} (f : A -> B) (R : B -> B -> Prop) (l l' : list A) :
  map f l = map f l' ->
  StronglySorted (fun a b => R (f a) (f b)) l ->
  StronglySorted (fun a b => R (f a) (f b)) l'.
Proof.
  revert l'; induction l as [|a l IH]; intros [|a' l'] Heq Hs; simpl in Heq;
    try discriminate; [constructor|].
  injection Heq as Ha Hl.
  apply StronglySorted_inv in Hs as [Hs Hf].
  constructor; [exact (IH l' Hl Hs)|].
  rewrite Forall_forall in *; intros y Hy; rewrite <- Ha.
  assert (Hm : In (f y) (map f l)) by (rewrite Hl; apply in_map, Hy).
  apply in_map_iff in Hm as (y0 & Hy0 & Hin).
  rewrite <- Hy0; apply Hf, Hin.
Qed.

Lemma bucket_precedes_map_eq (T : Lead -> Z) (m m' : list (string * list Lead)) :
  map (head_time T) m = map (head_time T) m' ->
  StronglySorted (bucket_precedes T) m -> StronglySorted (bucket_precedes T) m'.
Proof.
  apply (StronglySorted_map_eq (head_time T)
           (fun o1 o2 => match o1, o2 with Some x, Some y => (y < x)%Z | _, _ => False end)).
Qed.

(** One iteration of the grouping loop keeps the bucket invariants. *)
Lemma group_step_inv (T : Lead -> Z) (lab : Lead -> string) (Good : Lead -> Prop)
    (x : Lead) (rest xs0 : list Lead) (m : list (string * list Lead)) :
  StronglySorted (fun a b => (T b <= T a)%Z) (x :: rest) ->
  Good x ->
  (forall a b, Good a -> Good b -> T a = T b -> lab a = lab b) ->
  Forall (bucket_wf T lab) m ->
  StronglySorted (bucket_precedes T) m ->
  (forall e y z, In e m -> In y (snd e) -> In z (x :: rest) -> (T z <= T y)%Z) ->
  NoDup (map fst m) ->
  (forall e y, In e m -> In y (snd e) -> Good y) ->
  Permutation (concat (map snd m) ++ x :: rest) xs0 ->
  let m' := bucket_add m (lab x) x in
  Forall (bucket_wf T lab) m' /\
  StronglySorted (bucket_precedes T) m' /\
  (forall e y z, In e m' -> In y (snd e) -> In z rest -> (T z <= T y)%Z) /\
  NoDup (map fst m') /\
  (forall e y, In e m' -> In y (snd e) -> Good y) /\
  Permutation (concat (map snd m') ++ rest) xs0.
Proof.
  intros Hs Hgx Hsame Hwf Hss Hle Hnd Hgood Hp m'.
  apply StronglySorted_inv in Hs as [_ Hxr]; rewrite Forall_forall in Hxr.
  destruct (in_dec String.string_dec (lab x) (map fst m)) as [Hin|Hnin].
  - destruct (bucket_add_found m (lab x) x Hin) as (m1 & b & m2 & -> & _ & Heq).
    unfold m'; rewrite Heq; clear m' Heq.
    apply Forall_app in Hwf as [Hwf1 Hwf2]; apply Forall_cons_iff in Hwf2 as [Hwfb Hwf2].
    destruct Hwfb as (h & r & Hb & Hlab & Hrec); simpl in Hb, Hlab; subst b.
    assert (Hxh : (T x <= T h)%Z).
    { apply (Hle (lab x, h :: r)); [apply in_or_app; right; left; reflexivity
                                  |left; reflexivity|left; reflexivity]. }
    split; [|split; [|split; [|split; [|split]]]].
    + apply Forall_app; split; [exact Hwf1|constructor; [|exact Hwf2]].
      exists h, (r ++ [x]); simpl; split; [reflexivity|split].
      * constructor; [inversion Hlab; assumption|].
        apply Forall_app; split; [inversion Hlab; assumption|constructor; [reflexivity|constructor]].
      * apply Forall_app; split; [exact Hrec|constructor; [exact Hxh|constructor]].
    + apply (bucket_precedes_map_eq T (m1 ++ (lab x, h :: r) :: m2)); [|exact Hss].
      rewrite !map_app; reflexivity.
    + intros e y z He Hy Hz.
      apply in_app_or in He as [He|[He|He]].
      * apply (Hle e); [apply in_or_app; left; exact He|exact Hy|right; exact Hz].
      * subst e; simpl in Hy.
        destruct Hy as [Hy|Hy].
        { subst y; apply (Hle (lab x, h :: r)); [apply in_or_app; right; left; reflexivity
                                                |left; reflexivity|right; exact Hz]. }
        apply in_app_or in Hy as [Hy|[Hy|[]]].
        { apply (Hle (lab x, h :: r)); [apply in_or_app; right; left; reflexivity
                                       |right; exact Hy|right; exact Hz]. }
        subst y; apply Hxr, Hz.
      * apply (Hle e); [apply in_or_app; right; right; exact He|exact Hy|right; exact Hz].
    + rewrite map_app in *; exact Hnd.
    + intros e y He Hy.
      apply in_app_or in He as [He|[He|He]].
      * apply (Hgood e); [apply in_or_app; left; exact He|exact Hy].
      * subst e; simpl in Hy.
        destruct Hy as [Hy|Hy].
        { subst y; apply (Hgood (lab x, h :: r)); [apply in_or_app; right; left; reflexivity
                                                  |left; reflexivity]. }
        apply in_app_or in Hy as [Hy|[Hy|[]]]; [|subst y; exact Hgx].
        apply (Hgood (lab x, h :: r)); [apply in_or_app; right; left; reflexivity|right; exact Hy].
      * apply (Hgood e); [apply in_or_app; right; right; exact He|exact Hy].
    + eapply Permutation_trans; [|exact Hp].
      rewrite !map_app, !concat_app; simpl.
      rewrite <- !app_assoc; apply Permutation_app_head; simpl.
      apply perm_skip; rewrite <- !app_assoc; apply Permutation_app_head; simpl.
      apply Permutation_middle.
  - unfold m'; rewrite (bucket_add_new m (lab x) x Hnin); clear m'.
    split; [|split; [|split; [|split; [|split]]]].
    + apply Forall_app; split; [exact Hwf|constructor; [|constructor]].
      exists x, []; simpl; split; [reflexivity|split; constructor; auto].
    + apply StronglySorted_snoc; [exact Hss|].
      intros e He.
      rewrite Forall_forall in Hwf.
      destruct (Hwf e He) as (h & r & Hb & Hlab & _).
      unfold bucket_precedes, head_time; simpl; rewrite Hb.
      assert (Hxh : (T x <= T h)%Z)
        by (apply (Hle e); [exact He|rewrite Hb; left; reflexivity|left; reflexivity]).
      destruct (Z.eq_dec (T x) (T h)) as [E|E]; [|lia].
      exfalso; apply Hnin.
      assert (Hlh : lab h = fst e) by (inversion Hlab; assumption).
      rewrite (Hsame x h Hgx (Hgood e h He ltac:(rewrite Hb; left; reflexivity)) E), Hlh.
      apply in_map, He.
    + intros e y z He Hy Hz.
      apply in_app_or in He as [He|[He|[]]].
      * apply (Hle e); [exact He|exact Hy|right; exact Hz].
      * subst e; simpl in Hy; destruct Hy as [Hy|[]]; subst y; apply Hxr, Hz.
    + rewrite map_app; simpl.
      apply (Permutation_NoDup (Permutation_cons_append (map fst m) (lab x))).
      constructor; assumption.
    + intros e y He Hy.
      apply in_app_or in He as [He|[He|[]]].
      * apply (Hgood e); assumption.
      * subst e; simpl in Hy; destruct Hy as [Hy|[]]; subst y; exact Hgx.
    + eapply Permutation_trans; [|exact Hp].
      rewrite map_app, concat_app; simpl.
      rewrite <- !app_assoc; reflexivity.
Qed.

Lemma group_fold_inv (T : Lead -> Z) (lab : Lead -> string) (Good : Lead -> Prop)
    (xs xs0 : list Lead) (m : list (string * list Lead)) :
  StronglySorted (fun a b => (T b <= T a)%Z) xs ->
  Forall Good xs ->
  (forall a b, Good a -> Good b -> T a = T b -> lab a = lab b) ->
  Forall (bucket_wf T lab) m ->
  StronglySorted (bucket_precedes T) m ->
  (forall e y z, In e m -> In y (snd e) -> In z xs -> (T z <= T y)%Z) ->
  NoDup (map fst m) ->
  (forall e y, In e m -> In y (snd e) -> Good y) ->
  Permutation (concat (map snd m) ++ xs) xs0 ->
  let m' := fold_left (fun m x => bucket_add m (lab x) x) xs m in
  Forall (bucket_wf T lab) m' /\
  StronglySorted (bucket_precedes T) m' /\
  NoDup (map fst m') /\
  (forall e y, In e m' -> In y (snd e) -> Good y) /\
  Permutation (concat (map snd m')) xs0.
Proof.
  revert m; induction xs as [|x rest IH]; intros m Hs Hg Hsame Hwf Hss Hle Hnd Hgood Hp m'.
  - rewrite app_nil_r in Hp; repeat split; assumption.
  - apply Forall_cons_iff in Hg as [Hgx Hg].
    destruct (group_step_inv T lab Good x rest xs0 m Hs Hgx Hsame Hwf Hss Hle Hnd Hgood Hp)
      as (Hwf' & Hss' & Hle' & Hnd' & Hgood' & Hp').
    apply StronglySorted_inv in Hs as [Hs _].
    exact (IH _ Hs Hg Hsame Hwf' Hss' Hle' Hnd' Hgood' Hp').
Qed.

(** With labels in consecutive runs, the buckets, read in order, give back
    the loop's input. *)
Lemma group_fold_chunked (lab : Lead -> string) (xs : list Lead) :
  forall ms k0 b,
  labels_chunked lab xs = true ->
  (forall z, In z xs -> ~ In (lab z) (map fst ms)) ->
  ~ In k0 (map fst ms) ->
  (existsb (fun y => String.eqb (lab y) k0) xs = true ->
     match xs with y :: _ => lab y = k0 | [] => False end) ->
  concat (map snd (fold_left (fun m x => bucket_add m (lab x) x) xs (ms ++ [(k0, b)])))
  = concat (map snd ms) ++ b ++ xs.
Proof.
  induction xs as [|x rest IH]; intros ms k0 b Hch Hms Hk0 Hhd; simpl.
  - rewrite map_app, concat_app; simpl; rewrite !app_nil_r; reflexivity.
  - simpl in Hch; apply andb_true_iff in Hch as [Hch Hx].
    assert (Hmsx : ~ In (lab x) (map fst ms)) by (apply Hms; left; reflexivity).
    destruct (String.eqb (lab x) k0) eqn:E.
    + apply String.eqb_eq in E; subst k0.
      assert (Hba : bucket_add (ms ++ [(lab x, b)]) (lab x) x = ms ++ [(lab x, b ++ [x])]).
      { clear -Hmsx; induction ms as [|[k' b'] ms IHm]; simpl in *.
        - rewrite String.eqb_refl; reflexivity.
        - destruct (String.eqb k' (lab x)) eqn:E'.
          + apply String.eqb_eq in E'; subst; exfalso; apply Hmsx; left; reflexivity.
          + rewrite IHm; [reflexivity|intros H; apply Hmsx; right; exact H]. }
      rewrite Hba, IH.
      * rewrite <- app_assoc; reflexivity.
      * exact Hch.
      * intros z Hz; apply Hms; right; exact Hz.
      * exact Hmsx.
      * intros Hex; rewrite Hex in Hx.
        destruct rest as [|y rest']; [discriminate|].
        apply String.eqb_eq in Hx; exact Hx.
    + apply String.eqb_neq in E.
      assert (Hnk : forall z, In z (x :: rest) -> lab z <> k0).
      { intros z Hz Hzk.
        assert (Hex : existsb (fun y => String.eqb (lab y) k0) (x :: rest) = true).
        { apply existsb_exists; exists z; split; [exact Hz|apply String.eqb_eq, Hzk]. }
        specialize (Hhd Hex); simpl in Hhd; congruence. }
      rewrite (bucket_add_new (ms ++ [(k0, b)]) (lab x) x).
      * rewrite IH.
        -- rewrite map_app, concat_app; simpl; rewrite app_nil_r, <- !app_assoc; reflexivity.
        -- exact Hch.
        -- intros z Hz; rewrite map_app; simpl; intros Hin.
           apply in_app_or in Hin as [Hin|[Hin|[]]].
           ++ exact (Hms z (or_intror Hz) Hin).
           ++ exact (Hnk z (or_intror Hz) (eq_sym Hin)).
        -- rewrite map_app; simpl; intros Hin.
           apply in_app_or in Hin as [Hin|[Hin|[]]]; [exact (Hmsx Hin)|exact (E (eq_sym Hin))].
        -- intros Hex; rewrite Hex in Hx.
           destruct rest as [|y rest']; [discriminate|].
           apply String.eqb_eq in Hx; exact Hx.
      * rewrite map_app; simpl; intros Hin.
        apply in_app_or in Hin as [Hin|[Hin|[]]]; [exact (Hmsx Hin)|exact (E (eq_sym Hin))].
Qed.

Lemma StronglySorted_map_in {A B : Type} (f : A -> B) (R : A -> A -> Prop) (R' : B -> B -> Prop)
    (l : list A) :
  (forall a b, In a l -> In b l -> R a b -> R' (f a) (f b)) ->
  StronglySorted R l -> StronglySorted R' (map f l).
Proof.
  induction l as [|a l IH]; intros Himp Hs; simpl; [constructor|].
  apply StronglySorted_inv in Hs as [Hs Hf].
  constructor.
  - apply IH; [intros x y Hx Hy; apply Himp; right; assumption|exact Hs].
  - rewrite Forall_forall in *; intros y Hy.
    apply in_map_iff in Hy as (y0 & <- & Hy0).
    apply Himp; [left; reflexivity|right; exact Hy0|apply Hf, Hy0].
Qed.

Lemma StronglySorted_impl_in {A : Type} (R R' : A -> A -> Prop) (l : list A) :
  (forall a b, In a l -> In b l -> R a b -> R' a b) ->
  StronglySorted R l -> StronglySorted R' l.
Proof.
  intros Himp Hs; rewrite <- (map_id l).
  apply (StronglySorted_map_in id R R'); [|exact Hs].
  intros a b Ha Hb; apply Himp; assumption.
Qed.

(** The day label of a parsed date depends on its calendar day only. *)
Lemma formatDayHeader_same_day (parseISO : string -> option Z) (today : Z)
    (s1 s2 : string) (t1 t2 : Z) :
  s1 <> "" -> s2 <> "" -> parseISO s1 = Some t1 -> parseISO s2 = Some t2 ->
  day_of t1 = day_of t2 ->
  formatDayHeader parseISO today s1 = formatDayHeader parseISO today s2.
Proof.
  intros H1 H2 P1 P2 Hd; unfold formatDayHeader, ensureDate.
  rewrite (proj2 (String.eqb_neq _ _) H1), (proj2 (String.eqb_neq _ _) H2), P1, P2.
  unfold differenceInCalendarDays, isSameYear, year_of, format; rewrite Hd; reflexivity.
Qed.

Lemma formatDayHeader_parsed_ok (parseISO : string -> option Z) (today : Z) (s : string) (t : Z) :
  s <> "" -> parseISO s = Some t -> exists lbl, formatDayHeader parseISO today s = Ok lbl.
Proof.
  intros H1 P1; unfold formatDayHeader, ensureDate.
  rewrite (proj2 (String.eqb_neq _ _) H1), P1.
  destruct (opt_Z_eqb _ 0); [eauto|].
  destruct (opt_Z_eqb _ 1); [eauto|].
  unfold format; destruct (civil_from_days (day_of t)) as [[y m] d].
  destruct (isSameYear _ _); eauto.
Qed.

Lemma group_loop_fold (parseISO : string -> option Z) (today : Z) (lab : Lead -> string)
    (xs : list Lead) :
  forall m,
  (forall x, In x xs -> formatDayHeader parseISO today (date_added x) = Ok (lab x)) ->
  group_loop parseISO today m xs = Ok (fold_left (fun m x => bucket_add m (lab x) x) xs m).
Proof.
  induction xs as [|x rest IH]; intros m Hl; simpl; [reflexivity|].
  rewrite (Hl x (or_introl eq_refl)).
  apply IH; intros y Hy; apply Hl; right; exact Hy.
Qed.

Lemma day_of_mono (a b : Z) : (a <= b)%Z -> (day_of a <= day_of b)%Z.
Proof. intros H; unfold day_of, ms_per_day; apply Z.div_le_mono; lia. Qed.

(** Descending times with labels that determine the day and days that
    determine the label give consecutive runs of labels. *)
Lemma chunked_of_days (T : Lead -> Z) (lab : Lead -> string) (xs : list Lead) :
  StronglySorted (fun a b => (T b <= T a)%Z) xs ->
  (forall a b, In a xs -> In b xs -> lab a = lab b -> day_of (T a) = day_of (T b)) ->
  (forall a b, In a xs -> In b xs -> day_of (T a) = day_of (T b) -> lab a = lab b) ->
  labels_chunked lab xs = true.
Proof.
  induction xs as [|x rest IH]; intros Hs Hld Hdl; simpl; [reflexivity|].
  apply StronglySorted_inv in Hs as [Hs Hf].
  apply andb_true_iff; split.
  - apply IH; [exact Hs| |]; intros a b Ha Hb; [apply Hld|apply Hdl]; right; assumption.
  - destruct (existsb (fun y => String.eqb (lab y) (lab x)) rest) eqn:Hex; [|reflexivity].
    apply existsb_exists in Hex as (z & Hz & Hzx); apply String.eqb_eq in Hzx.
    destruct rest as [|y rest']; [contradiction|].
    apply String.eqb_eq.
    assert (Hdz : day_of (T z) = day_of (T x)) by (apply Hld; [right; exact Hz|left; reflexivity|exact Hzx]).
    assert (Hzy : (T z <= T y)%Z).
    { destruct Hz as [<-|Hz]; [lia|].
      apply StronglySorted_inv in Hs as [_ Hf']; rewrite Forall_forall in Hf'; apply Hf', Hz. }
    assert (Hyx : (T y <= T x)%Z) by (rewrite Forall_forall in Hf; apply Hf; left; reflexivity).
    apply day_of_mono in Hzy; apply day_of_mono in Hyx.
    apply Hdl; [right; left; reflexivity|left; reflexivity|lia].
Qed.

Lemma group_fold_chunked_nil (lab : Lead -> string) (xs : list Lead) :
  labels_chunked lab xs = true ->
  concat (map snd (fold_left (fun m x => bucket_add m (lab x) x) xs [])) = xs.
Proof.
  destruct xs as [|x rest]; intros Hc; [reflexivity|].
  simpl in Hc; apply andb_true_iff in Hc as [Hc Hx].
  cbn [fold_left].
  change (bucket_add [] (lab x) x) with ([] ++ [(lab x, [x])]).
  rewrite group_fold_chunked; [reflexivity|exact Hc|intros z _ []|intros []|].
  intros Hex; rewrite Hex in Hx.
  destruct rest as [|y rest']; [discriminate|apply String.eqb_eq, Hx].
Qed.

(** C5 (amended).  When every [date_added] parses, [groupByDateAdded]
    does not fail; the sorted sequence is the input reordered by
    descending instant; the buckets hold every lead exactly once, have
    distinct labels, are non-empty with members all carrying the bucket's
    day label and the first member the most recent, and come in strictly
    descending recency of their first members.  The buckets read in order
    give back the sorted sequence when no two calendar days share a label,
    which the era-year printing of date-fns breaks (year 0 and year 1 both
    print as [0001]). *)
Theorem groupByDateAdded_buckets (parseISO : string -> option Z) (today : Z) (leads : list Lead)
    (Hparse : all_dates_parse parseISO leads = true) :
  let sorted := js_sort (date_added_cmp parseISO) leads in
  exists groups,
    groupByDateAdded parseISO today leads = Ok groups /\
    Permutation sorted leads /\
    StronglySorted (later_or_same parseISO) sorted /\
    Permutation (concat (map group_leads groups)) leads /\
    Forall (group_ok parseISO today) groups /\
    NoDup (map group_label groups) /\
    StronglySorted (group_before parseISO) groups /\
    (labels_of_distinct_days parseISO today leads = true ->
       concat (map group_leads groups) = sorted).
Proof.
  intros sorted.
  set (T := fun x => match added_time parseISO x with Some t => t | None => 0%Z end).
  set (lab := fun x => match formatDayHeader parseISO today (date_added x) with
                       | Ok l => l | Throw _ => "" end).
  set (Good := fun x => In x leads /\ date_added x <> "" /\ parseISO (date_added x) = Some (T x)).
  assert (HG : forall x, In x leads -> Good x).
  { intros x Hx; unfold all_dates_parse in Hparse; rewrite forallb_forall in Hparse.
    specialize (Hparse x Hx); apply andb_true_iff in Hparse as [Hne Hp].
    split; [exact Hx|split].
    - intros E; rewrite E in Hne; discriminate.
    - unfold T, added_time; destruct (parseISO (date_added x)); [reflexivity|discriminate]. }
  assert (Hlab : forall x, Good x -> formatDayHeader parseISO today (date_added x) = Ok (lab x)).
  { intros x (_ & Hne & Hp).
    destruct (formatDayHeader_parsed_ok parseISO today _ _ Hne Hp) as [l Hl].
    unfold lab; rewrite Hl; reflexivity. }
  assert (Hsame : forall a b, Good a -> Good b -> day_of (T a) = day_of (T b) -> lab a = lab b).
  { intros a b (_ & Ha1 & Ha2) (_ & Hb1 & Hb2) Hd; unfold lab.
    rewrite (formatDayHeader_same_day parseISO today _ _ _ _ Ha1 Hb1 Ha2 Hb2 Hd); reflexivity. }
  assert (Hsort : sorted = js_sort (fun a b => (T b - T a)%Z) leads).
  { unfold sorted; apply js_sort_ext; intros a b Ha Hb.
    destruct (HG a Ha) as (_ & _ & Pa); destruct (HG b Hb) as (_ & _ & Pb).
    unfold date_added_cmp, added_time; rewrite Pa, Pb; reflexivity. }
  assert (Hperm : Permutation sorted leads) by (unfold sorted; apply js_sort_perm).
  assert (Hin : forall x, In x sorted -> In x leads) by (intros x Hx; apply (Permutation_in x Hperm Hx)).
  assert (Hdesc : StronglySorted (fun a b => (T b <= T a)%Z) sorted).
  { rewrite Hsort.
    apply (StronglySorted_impl_in (fun a b => (T b - T a <= 0)%Z)); [intros; lia|].
    apply Sorted_StronglySorted; [intros a b c Hab Hbc; lia|].
    apply (js_sort_sorted (fun a b => (T b - T a)%Z)); intros a b; lia. }
  assert (HGs : Forall Good sorted) by (apply Forall_forall; intros x Hx; apply HG, Hin, Hx).
  assert (Hloop : group_loop parseISO today [] sorted =
                  Ok (fold_left (fun m x => bucket_add m (lab x) x) sorted [])).
  { apply group_loop_fold; intros x Hx; apply Hlab, HG, Hin, Hx. }
  destruct (group_fold_inv T lab Good sorted sorted [] Hdesc HGs
              ltac:(intros a b Ha Hb E; apply Hsame; [exact Ha|exact Hb|rewrite E; reflexivity])
              (Forall_nil _) (SSorted_nil _) ltac:(intros e y z []) (NoDup_nil _)
              ltac:(intros e y []) (Permutation_refl _))
    as (Hwf & Hss & Hnd & Hgood & Hp).
  set (M := fold_left (fun m x => bucket_add m (lab x) x) sorted []) in *.
  unfold groupByDateAdded; change (js_sort (date_added_cmp parseISO) leads) with sorted.
  rewrite Hloop.
  exists (map (fun e => {| group_label := fst e; group_leads := snd e |}) M).
  assert (Hml : map group_leads (map (fun e => {| group_label := fst e; group_leads := snd e |}) M)
                = map snd M) by (rewrite map_map; reflexivity).
  rewrite Forall_forall in Hwf.
  split; [reflexivity|].
  split; [exact Hperm|].
  split.
  { refine (StronglySorted_impl_in _ _ _ _ Hdesc).
    intros a b Ha Hb H.
    destruct (HG a (Hin a Ha)) as (_ & _ & Pa); destruct (HG b (Hin b Hb)) as (_ & _ & Pb).
    unfold later_or_same, added_time; rewrite Pa, Pb; exact H. }
  split; [rewrite Hml; exact (Permutation_trans Hp Hperm)|].
  split.
  { apply Forall_forall; intros g Hg; apply in_map_iff in Hg as (e & <- & He).
    destruct (Hwf e He) as (h & r & Hb & Hlb & Hrec).
    exists h, r; simpl; split; [exact Hb|split].
    - rewrite Forall_forall in *; intros l Hl.
      rewrite (Hlab l (Hgood e l He ltac:(rewrite Hb; exact Hl))); f_equal; apply Hlb, Hl.
    - rewrite Forall_forall in *; intros y Hy.
      destruct (Hgood e h He ltac:(rewrite Hb; left; reflexivity)) as (_ & _ & Ph).
      destruct (Hgood e y He ltac:(rewrite Hb; right; exact Hy)) as (_ & _ & Py).
      unfold later_or_same, added_time; rewrite Ph, Py; apply Hrec, Hy. }
  split; [rewrite map_map; exact Hnd|].
  split.
  { apply (StronglySorted_map_in _ (bucket_precedes T)); [|exact Hss].
    intros e1 e2 He1 He2 Hpr.
    destruct (Hwf e1 He1) as (h1 & r1 & Hb1 & _ & _).
    destruct (Hwf e2 He2) as (h2 & r2 & Hb2 & _ & _).
    unfold bucket_precedes, head_time in Hpr; rewrite Hb1, Hb2 in Hpr.
    destruct (Hgood e1 h1 He1 ltac:(rewrite Hb1; left; reflexivity)) as (_ & _ & P1).
    destruct (Hgood e2 h2 He2 ltac:(rewrite Hb2; left; reflexivity)) as (_ & _ & P2).
    unfold group_before, strictly_later, added_time; simpl; rewrite Hb1, Hb2, P1, P2; exact Hpr. }
  intros Hdist; rewrite Hml.
  apply group_fold_chunked_nil.
  apply (chunked_of_days T lab sorted Hdesc).
  - intros a b Ha Hb E.
    pose proof (HG a (Hin a Ha)) as Ga; pose proof (HG b (Hin b Hb)) as Gb.
    unfold labels_of_distinct_days in Hdist; rewrite forallb_forall in Hdist.
    specialize (Hdist a (Hin a Ha)); rewrite forallb_forall in Hdist.
    specialize (Hdist b (Hin b Hb)).
    rewrite (Hlab a Ga), (Hlab b Gb) in Hdist; simpl in Hdist.
    rewrite E, String.eqb_refl in Hdist; simpl in Hdist.
    destruct Ga as (_ & _ & Pa); destruct Gb as (_ & _ & Pb).
    unfold lead_day, added_time in Hdist; rewrite Pa, Pb in Hdist; simpl in Hdist.
    apply Z.eqb_eq, Hdist.
  - intros a b Ha Hb E; apply Hsame; [apply HG, Hin, Ha|apply HG, Hin, Hb|exact E].
Qed.

(** C5 witness: four recent leads, with [TODAY] fixed. *)
Lemma groupByDateAdded_buckets_witness :
  all_dates_parse parseISO_model leads_recent = true /\
  exists groups, groupByDateAdded parseISO_model today_example leads_recent = Ok groups.
Proof.
  assert (H : all_dates_parse parseISO_model leads_recent = true) by reflexivity.
  split; [exact H|].
  destruct (groupByDateAdded_buckets parseISO_model today_example leads_recent H) as (g & Hg & _).
  exists g; exact Hg.
Defined.

(** C5 counterexample: dates that all parse, but whose buckets, read in
    order, are not the descending-sorted sequence: [0001-01-01] and
    [0000-01-01] share the label [1 Jan 0001], so the later year-0 lead
    [c] lands in the first bucket, ahead of [b]. *)
Lemma groupByDateAdded_concat_counterexample :
  all_dates_parse parseISO_model leads_era = true /\
  exists groups,
    groupByDateAdded parseISO_model today_example leads_era = Ok groups /\
    concat (map group_leads groups) <> js_sort (date_added_cmp parseISO_model) leads_era.
Proof.
  split; [reflexivity|].
  eexists; split; [vm_compute; reflexivity|].
  vm_compute; discriminate.
Qed.

Lemma formatDayHeader_throw_inv (parseISO : string -> option Z) (today : Z) (s : string) (e : js_error) :
  formatDayHeader parseISO today s = Throw e -> e = RangeError "Invalid time value".
Proof.
  unfold formatDayHeader, ensureDate.
  destruct (String.eqb s ""); [discriminate|].
  destruct (opt_Z_eqb _ 0); [discriminate|].
  destruct (opt_Z_eqb _ 1); [discriminate|].
  unfold format; destruct (parseISO s) as [t|]; [|congruence].
  destruct (civil_from_days (day_of t)) as [[y m] d].
  destruct (isSameYear _ _); discriminate.
Qed.

Lemma group_loop_throws (parseISO : string -> option Z) (today : Z) (xs : list Lead) (x : Lead) :
  forall m, In x xs ->
  formatDayHeader parseISO today (date_added x) = Throw (RangeError "Invalid time value") ->
  group_loop parseISO today m xs = Throw (RangeError "Invalid time value").
Proof.
  induction xs as [|y rest IH]; intros m Hx Hthrow; [contradiction|]; simpl.
  destruct (formatDayHeader parseISO today (date_added y)) as [lbl|e] eqn:Ey.
  - destruct Hx as [<-|Hx]; [congruence|].
    apply IH; assumption.
  - f_equal; apply (formatDayHeader_throw_inv parseISO today (date_added y)), Ey.
Qed.

(** C4 (code bug).  A lead whose non-empty [date_added] does not parse
    makes [groupByDateAdded] throw [RangeError: Invalid time value]: date-fns
    [parseISO] returns an Invalid Date instead of throwing, so [ensureDate]
    never yields [null], and [format] throws on the Invalid Date.  No lead is
    bucketed under ["Unknown date"]. *)
Theorem groupByDateAdded_unparseable_throws (parseISO : string -> option Z) (today : Z)
    (leads : list Lead) (l : Lead) :
  In l leads -> date_added l <> "" -> parseISO (date_added l) = None ->
  groupByDateAdded parseISO today leads = Throw (RangeError "Invalid time value").
Proof.
  intros Hin Hne Hnone; unfold groupByDateAdded.
  rewrite (group_loop_throws parseISO today (js_sort (date_added_cmp parseISO) leads) l).
  - reflexivity.
  - apply (Permutation_in l (Permutation_sym (js_sort_perm _ leads)) Hin).
  - unfold formatDayHeader, ensureDate.
    rewrite (proj2 (String.eqb_neq _ _) Hne), Hnone; reflexivity.
Qed.

(** C4 witness: the single lead dated ["not-a-date"]. *)
Lemma groupByDateAdded_unparseable_throws_witness :
  groupByDateAdded parseISO_model today_example [lead_bad_date] =
  Throw (RangeError "Invalid time value").
Proof.
  apply (groupByDateAdded_unparseable_throws parseISO_model today_example [lead_bad_date] lead_bad_date).
  - left; reflexivity.
  - discriminate.
  - reflexivity.
Defined.

(** ** Facets *)

Lemma Qeq_bool_refl' (a : Q) : Qeq_bool a a = true.
Proof. apply Qeq_bool_iff; reflexivity. Qed.

Lemma Qeq_bool_sym' (a b : Q) : Qeq_bool a b = Qeq_bool b a.
Proof.
  destruct (Qeq_bool a b) eqn:E1, (Qeq_bool b a) eqn:E2; try reflexivity.
  - apply Qeq_bool_iff in E1; apply Qeq_sym, Qeq_bool_iff in E1; congruence.
  - apply Qeq_bool_iff in E2; apply Qeq_sym, Qeq_bool_iff in E2; congruence.
Qed.

Lemma Qeq_bool_trans' (a b c : Q) :
  Qeq_bool a b = true -> Qeq_bool b c = true -> Qeq_bool a c = true.
Proof.
  intros H1 H2; apply Qeq_bool_iff in H1, H2; apply Qeq_bool_iff.
  exact (Qeq_trans _ _ _ H1 H2).
Qed.

Lemma map_has_iff (m : list (Q * string)) (q : Q) :
  map_has m q = true <-> exists e, In e m /\ Qeq_bool (fst e) q = true.
Proof. unfold map_has; apply existsb_exists. Qed.

Lemma map_has_app (m : list (Q * string)) (e : Q * string) (q : Q) :
  map_has (app m [e]) q = map_has m q || Qeq_bool (fst e) q.
Proof. unfold map_has; rewrite existsb_app; simpl; rewrite orb_false_r; reflexivity. Qed.

Lemma map_has_step_mono key lab (m : list (Q * string)) (l : Lead) (q : Q) :
  map_has m q = true -> map_has (facet_map_step key lab m l) q = true.
Proof.
  intros H; unfold facet_map_step.
  destruct (key l) as [p|]; [|exact H].
  destruct (map_has m p); [exact H|rewrite map_has_app, H; reflexivity].
Qed.

Lemma facet_map_complete key lab (xs : list Lead) :
  forall l q, In l xs -> key l = Some q ->
  map_has (fold_left (facet_map_step key lab) xs []) q = true.
Proof.
  induction xs as [|x xs IH] using rev_ind; intros l q Hin Hk; [contradiction|].
  rewrite fold_left_app; cbn [fold_left].
  set (m := fold_left (facet_map_step key lab) xs []) in *.
  apply in_app_or in Hin as [Hin|[<-|[]]].
  - apply map_has_step_mono, (IH l q Hin Hk).
  - unfold facet_map_step; rewrite Hk.
    destruct (map_has m q) eqn:E; [exact E|].
    rewrite map_has_app; simpl; rewrite Qeq_bool_refl', orb_true_r; reflexivity.
Qed.

Lemma facet_map_nodup key lab (xs : list Lead) :
  NoDup (map (fun e => Qred (fst e)) (fold_left (facet_map_step key lab) xs [])).
Proof.
  induction xs as [|x xs IH] using rev_ind; [constructor|].
  rewrite fold_left_app; cbn [fold_left].
  set (m := fold_left (facet_map_step key lab) xs []) in *.
  unfold facet_map_step.
  destruct (key x) as [q|]; [|exact IH].
  destruct (map_has m q) eqn:E; [exact IH|].
  rewrite map_app; simpl.
  apply (Permutation_NoDup (Permutation_cons_append _ _)).
  constructor; [|exact IH].
  intros Hin; apply in_map_iff in Hin as (e & He & Hin).
  assert (Hh : map_has m q = true).
  { apply map_has_iff; exists e; split; [exact Hin|].
    apply Qeq_bool_iff, Qred_eq_iff, He. }
  congruence.
Qed.

Lemma facet_map_first key lab (xs : list Lead) :
  forall e, In e (fold_left (facet_map_step key lab) xs []) ->
  exists pre l post, xs = app pre (l :: post) /\ key l = Some (fst e) /\
    snd e = lab (raw_of l) (fst e) /\
    (forall l' q', In l' pre -> key l' = Some q' -> Qeq_bool q' (fst e) = false).
Proof.
  induction xs as [|x xs IH] using rev_ind; intros e Hin; [contradiction|].
  rewrite fold_left_app in Hin; cbn [fold_left] in Hin.
  unfold facet_map_step at 1 in Hin.
  assert (Hold : In e (fold_left (facet_map_step key lab) xs []) ->
    exists pre l post, app xs [x] = app pre (l :: post) /\ key l = Some (fst e) /\
      snd e = lab (raw_of l) (fst e) /\
      (forall l' q', In l' pre -> key l' = Some q' -> Qeq_bool q' (fst e) = false)).
  { intros H; destruct (IH e H) as (pre & l & post & -> & H1 & H2 & H3).
    exists pre, l, (app post [x]); split; [rewrite <- app_assoc; reflexivity|auto]. }
  destruct (key x) as [q|] eqn:Hk; [|exact (Hold Hin)].
  destruct (map_has _ q) eqn:E; [exact (Hold Hin)|].
  apply in_app_or in Hin as [Hin|[<-|[]]]; [exact (Hold Hin)|].
  exists xs, x, []; simpl; split; [reflexivity|split; [exact Hk|split; [reflexivity|]]].
  intros l' q' Hl' Hk'.
  destruct (Qeq_bool q' q) eqn:Eq; [|reflexivity].
  pose proof (facet_map_complete key lab xs l' q' Hl' Hk') as Hh.
  apply map_has_iff in Hh as (e' & He' & Hq).
  assert (Hq' : map_has (fold_left (facet_map_step key lab) xs []) q = true)
    by (apply map_has_iff; exists e'; split; [exact He'|exact (Qeq_bool_trans' _ _ _ Hq Eq)]).
  congruence.
Qed.

Lemma facet_scan_maps (STN : string -> num) (NTS : Q -> string) (xs : list Lead) (st : FacetState) :
  let st' := fold_left (facet_step STN NTS) xs st in
  regionMap st' =
    fold_left (facet_map_step (fun l => toNumber STN NTS (obj_get (raw_of l) "region_obj_id"))
                              (region_label NTS)) xs (regionMap st) /\
  zoneMap st' =
    fold_left (facet_map_step (fun l => toNumber STN NTS (obj_get (raw_of l) "zone_id"))
                              (zone_label NTS)) xs (zoneMap st) /\
  propertyTypeSet st' =
    fold_left (fun s l => match toNumber STN NTS (obj_get (raw_of l) "property_type") with
                          | Some q => set_add s q | None => s end) xs (propertyTypeSet st).
Proof.
  revert st; induction xs as [|x xs IH]; intros st; simpl; [auto|].
  exact (IH (facet_step STN NTS st x)).
Qed.

Lemma set_has_add (s : list Q) (p q : Q) :
  set_has (set_add s p) q = set_has s q || Qeq_bool q p.
Proof.
  unfold set_add; destruct (set_has s p) eqn:E.
  - destruct (Qeq_bool q p) eqn:Eq; [|rewrite orb_false_r; reflexivity].
    rewrite orb_true_r.
    unfold set_has in *; apply existsb_exists in E as (y & Hy & Hpy).
    apply existsb_exists; exists y; split; [exact Hy|exact (Qeq_bool_trans' _ _ _ Eq Hpy)].
  - unfold set_has; rewrite existsb_app; simpl; rewrite orb_false_r; reflexivity.
Qed.

Lemma set_add_nonempty (s : list Q) (p : Q) : set_add s p <> [].
Proof.
  unfold set_add; destruct (set_has s p) eqn:E.
  - destruct s; [discriminate|discriminate].
  - destruct s; discriminate.
Qed.

Section PropertyTypes.

Variable ptype : Lead -> option Q.

Lemma ptype_fold_has (xs : list Lead) :
  forall s q,
  set_has (fold_left (fun s l => match ptype l with Some p => set_add s p | None => s end) xs s) q =
  set_has s q || existsb (fun l => match ptype l with Some p => Qeq_bool q p | None => false end) xs.
Proof.
  induction xs as [|x xs IH]; intros s q; simpl; [rewrite orb_false_r; reflexivity|].
  rewrite IH; destruct (ptype x) as [p|].
  - rewrite set_has_add, orb_assoc; reflexivity.
  - reflexivity.
Qed.

Lemma ptype_fold_none (xs : list Lead) :
  forall s,
  existsb (fun l => match ptype l with Some _ => true | None => false end) xs = false ->
  fold_left (fun s l => match ptype l with Some p => set_add s p | None => s end) xs s = s.
Proof.
  induction xs as [|x xs IH]; intros s H; simpl in *; [reflexivity|].
  destruct (ptype x); [discriminate|apply IH, H].
Qed.

Lemma ptype_fold_some (xs : list Lead) :
  forall s,
  (s <> [] \/ existsb (fun l => match ptype l with Some _ => true | None => false end) xs = true) ->
  fold_left (fun s l => match ptype l with Some p => set_add s p | None => s end) xs s <> [].
Proof.
  induction xs as [|x xs IH]; intros s H; simpl in *.
  - destruct H as [H|H]; [exact H|discriminate].
  - apply IH; destruct (ptype x) as [p|].
    + left; apply set_add_nonempty.
    + exact H.
Qed.

End PropertyTypes.

Lemma js_filter_ext {A : Type} (p p' : A -> bool) (l : list A) :
  (forall x, p x = p' x) -> js_filter p l = js_filter p' l.
Proof.
  intros H; induction l as [|x l IH]; simpl; [reflexivity|].
  rewrite H, IH; reflexivity.
Qed.

Lemma Sorted_map_impl {A B : Type} (f : A -> B) (R : A -> A -> Prop) (R' : B -> B -> Prop)
    (l : list A) :
  (forall a b, R a b -> R' (f a) (f b)) -> Sorted R l -> Sorted R' (map f l).
Proof.
  intros Himp; induction l as [|a l IH]; intros Hs; simpl; [constructor|].
  apply Sorted_inv in Hs as [Hs Hhd].
  constructor; [apply IH, Hs|].
  destruct l as [|b l]; simpl; constructor.
  apply Himp; apply HdRel_inv in Hhd; exact Hhd.
Qed.

(** [mapToOptions] of a facet map built by the scan meets the facet
    contract. *)
Lemma mapToOptions_facet_ok (lc : string -> string -> Z)
    (Hanti : forall a b, (0 < lc a b)%Z -> (lc b a <= 0)%Z)
    key lab (leads : list Lead) :
  facet_ok key lab lc leads (mapToOptions lc (fold_left (facet_map_step key lab) leads [])).
Proof.
  set (m := fold_left (facet_map_step key lab) leads []).
  set (S := js_sort (fun a b => lc (snd a) (snd b)) m).
  assert (HpS : Permutation S m) by apply js_sort_perm.
  unfold mapToOptions; fold S.
  assert (Hin : forall o, In o (map (fun e => {| value := fst e; label := snd e |}) S) ->
                exists e, In e m /\ o = {| value := fst e; label := snd e |}).
  { intros o Ho; apply in_map_iff in Ho as (e & <- & He).
    exists e; split; [apply (Permutation_in e HpS He)|reflexivity]. }
  assert (Hsorted : Sorted (fun o1 o2 => (lc (label o1) (label o2) <= 0)%Z)
                      (map (fun e => {| value := fst e; label := snd e |}) S)).
  { apply (Sorted_map_impl _ (fun a b => (lc (snd a) (snd b) <= 0)%Z)); [intros a b H; exact H|].
    apply (js_sort_sorted (fun a b => lc (snd a) (snd b))).
    intros a b; apply Hanti. }
  split; [|split; [|split; [|split]]].
  - rewrite map_map; simpl.
    apply (Permutation_NoDup (Permutation_map (fun e => Qred (fst e)) (Permutation_sym HpS))).
    apply facet_map_nodup.
  - intros l q Hl Hk.
    pose proof (facet_map_complete key lab leads l q Hl Hk) as Hh; fold m in Hh.
    apply map_has_iff in Hh as (e & He & Hq).
    exists {| value := fst e; label := snd e |}; split; [|exact Hq].
    apply in_map_iff; exists e; split; [reflexivity|].
    exact (Permutation_in e (Permutation_sym HpS) He).
  - intros o Ho; destruct (Hin o Ho) as (e & He & ->); simpl.
    exact (facet_map_first key lab leads e He).
  - exact Hsorted.
  - intros Hci.
    rewrite <- (map_id (map _ S)).
    apply (Sorted_map_impl id (fun o1 o2 => (lc (label o1) (label o2) <= 0)%Z)); [|exact Hsorted].
    intros a b H E; unfold id in E; apply Hci in E; lia.
Qed.

(** C7.  The property-type facet of [deriveFilterOptions] is the whole
    catalog when no lead carries a numeric [property_type], and otherwise
    the catalog entries whose value occurs, in catalog order.  The region
    and zone facets each have one option per id, an option for every id
    of a lead, the label of the first lead carrying the id (the text of
    the first non-blank label field, or the placeholder [Județ #id] /
    [Zonă #id]), and ascending order of labels under the collation; when
    the collation refines the case-insensitive order, the labels are in
    case-insensitive ascending order.  The collation [localeCompare] is
    any comparator whose sign is antisymmetric. *)
Theorem deriveFilterOptions_spec (STN : string -> num) (NTS : Q -> string)
    (localeCompare : string -> string -> Z)
    (Hanti : forall a b, (0 < localeCompare a b)%Z -> (localeCompare b a <= 0)%Z)
    (leads : list Lead) :
  let opts := deriveFilterOptions STN NTS localeCompare leads in
  let ptype := fun l => toNumber STN NTS (obj_get (raw_of l) "property_type") in
  optPropertyTypes opts =
    (if existsb (fun l => match ptype l with Some _ => true | None => false end) leads
     then js_filter (fun o => existsb (fun l => match ptype l with
                                                | Some q => Qeq_bool (value o) q
                                                | None => false end) leads)
                    PROPERTY_TYPE_OPTIONS
     else PROPERTY_TYPE_OPTIONS) /\
  facet_ok (fun l => toNumber STN NTS (obj_get (raw_of l) "region_obj_id"))
    (fun raw q => match extractLabel raw ["region_name"; "region"; "county"] with
                  | Some s => s | None => String.append "Județ #" (NTS q) end)
    localeCompare leads (regions opts) /\
  facet_ok (fun l => toNumber STN NTS (obj_get (raw_of l) "zone_id"))
    (fun raw q => match extractLabel raw ["zone_name"; "zone"] with
                  | Some s => s | None => String.append "Zonă #" (NTS q) end)
    localeCompare leads (zones opts).
Proof.
  cbv zeta beta.
  destruct (facet_scan_maps STN NTS leads {| propertyTypeSet := []; regionMap := []; zoneMap := [] |})
    as (Hr & Hz & Hp).
  change (fold_left (facet_step STN NTS) leads
            {| propertyTypeSet := []; regionMap := []; zoneMap := [] |})
    with (facet_scan STN NTS leads) in Hr, Hz, Hp.
  unfold deriveFilterOptions; cbn [optPropertyTypes regions zones].
  rewrite Hr, Hz, Hp; cbn [regionMap zoneMap propertyTypeSet].
  split; [|split].
  - pose proof (ptype_fold_has (fun l => toNumber STN NTS (obj_get (raw_of l) "property_type")) leads [])
      as Hhas.
    pose proof (ptype_fold_none (fun l => toNumber STN NTS (obj_get (raw_of l) "property_type")) leads [])
      as Hnone.
    pose proof (ptype_fold_some (fun l => toNumber STN NTS (obj_get (raw_of l) "property_type")) leads [])
      as Hsome.
    cbv beta in Hhas, Hnone, Hsome.
    destruct (existsb _ leads) eqn:E.
    + specialize (Hsome (or_intror eq_refl)).
      destruct (fold_left _ leads []) as [|a l] eqn:F; [contradiction|].
      apply js_filter_ext; intros o.
      rewrite Hhas; reflexivity.
    + rewrite (Hnone eq_refl); reflexivity.
  - exact (mapToOptions_facet_ok localeCompare Hanti _ (region_label NTS) leads).
  - exact (mapToOptions_facet_ok localeCompare Hanti _ (zone_label NTS) leads).
Qed.

Lemma localeCompare_model_anti (a b : string) :
  (0 < localeCompare_model a b)%Z -> (localeCompare_model b a <= 0)%Z.
Proof.
  unfold localeCompare_model; rewrite (String.compare_antisym (lower b) (lower a)).
  destruct (String.compare (lower a) (lower b)); simpl; lia.
Qed.

(** C7 witness: four leads with a repeated region id, a blank label and
    mixed case.  The first label seen for region 12 ([cluj]) wins, region
    5 gets the placeholder, and the labels come case-insensitively
    sorted. *)
Lemma deriveFilterOptions_spec_witness :
  let opts := deriveFilterOptions StringToNumber_model NumberToString_model
                localeCompare_model leads_facets in
  map (fun o => (value o, label o)) (regions opts) =
    [(40, "Bihor"); (12, "cluj"); (5, "Județ #5")]%Q /\
  map value (optPropertyTypes opts) = [1; 3]%Q /\
  facet_ok (fun l => toNumber StringToNumber_model NumberToString_model
                       (obj_get (raw_of l) "region_obj_id"))
    (region_label NumberToString_model) localeCompare_model leads_facets (regions opts).
Proof.
  intros opts.
  destruct (deriveFilterOptions_spec StringToNumber_model NumberToString_model localeCompare_model
              localeCompare_model_anti leads_facets) as (_ & Hr & _).
  split; [vm_compute; reflexivity|split; [vm_compute; reflexivity|exact Hr]].
Defined.

(** ** Composition of the lead filters *)

Lemma js_filter_compose {A : Type} (p q : A -> bool) (l : list A) :
  js_filter p (js_filter q l) = js_filter (fun x => q x && p x) l.
Proof.
  induction l as [|x l IH]; simpl; [reflexivity|].
  destruct (q x); simpl; [destruct (p x); simpl|]; rewrite IH; reflexivity.
Qed.

Lemma js_filter_app {A : Type} (p : A -> bool) (l1 l2 : list A) :
  js_filter p (app l1 l2) = app (js_filter p l1) (js_filter p l2).
Proof.
  induction l1 as [|x l1 IH]; simpl; [reflexivity|].
  destruct (p x); simpl; rewrite IH; reflexivity.
Qed.

Lemma applyLeadFilters_eq (STN : string -> num) (NTS : Q -> string) (DP : string -> option Z)
    (leads : list Lead) (f : LeadFilters) :
  applyLeadFilters STN NTS DP leads f = js_filter (lead_matches STN NTS DP f) leads.
Proof. destruct leads; reflexivity. Qed.

(** Filtering again with the same filters changes nothing, and two filter
    sets applied one after the other give the same list in either
    order. *)
Theorem applyLeadFilters_idem_comm (STN : string -> num) (NTS : Q -> string)
    (DP : string -> option Z) (leads : list Lead) (f g : LeadFilters) :
  applyLeadFilters STN NTS DP (applyLeadFilters STN NTS DP leads f) f =
    applyLeadFilters STN NTS DP leads f /\
  applyLeadFilters STN NTS DP (applyLeadFilters STN NTS DP leads f) g =
    applyLeadFilters STN NTS DP (applyLeadFilters STN NTS DP leads g) f.
Proof.
  rewrite !applyLeadFilters_eq, !js_filter_compose; split.
  - apply js_filter_ext; intros x; apply andb_diag.
  - apply js_filter_ext; intros x; apply andb_comm.
Qed.

(** Filtering a concatenation of lead lists is concatenating the filtered
    lists: each lead is judged on its own. *)
Theorem applyLeadFilters_app (STN : string -> num) (NTS : Q -> string)
    (DP : string -> option Z) (l1 l2 : list Lead) (f : LeadFilters) :
  applyLeadFilters STN NTS DP (app l1 l2) f =
    app (applyLeadFilters STN NTS DP l1 f) (applyLeadFilters STN NTS DP l2 f).
Proof. rewrite !applyLeadFilters_eq; apply js_filter_app. Qed.

(** A filter set is the conjunction of its criteria: applying it is
    applying, one after the other, the filter sets that keep one criterion
    each (property types, region, zone, transaction type with budget,
    rooms, date range). *)
Theorem applyLeadFilters_criteria (STN : string -> num) (NTS : Q -> string)
    (DP : string -> option Z) (leads : list Lead) (f : LeadFilters) :
  applyLeadFilters STN NTS DP leads f =
  applyLeadFilters STN NTS DP
   (applyLeadFilters STN NTS DP
    (applyLeadFilters STN NTS DP
     (applyLeadFilters STN NTS DP
      (applyLeadFilters STN NTS DP
       (applyLeadFilters STN NTS DP leads (only_propertyTypes f))
       (only_region f)) (only_zone f)) (only_deal f)) (only_rooms f)) (only_dates f).
Proof.
  rewrite !applyLeadFilters_eq, !js_filter_compose.
  apply js_filter_ext; intros l.
  unfold lead_matches; cbn -[clause_property_type clause_region clause_zone
                              clause_transaction clause_rooms clause_budget clause_date].
  set (raw := raw_of l).
  assert (E1 : clause_property_type STN NTS (only_propertyTypes f) raw =
               clause_property_type STN NTS f raw) by reflexivity.
  assert (E2 : clause_region STN NTS (only_region f) raw = clause_region STN NTS f raw)
    by reflexivity.
  assert (E3 : clause_zone STN NTS (only_zone f) raw = clause_zone STN NTS f raw)
    by reflexivity.
  assert (E4 : clause_transaction (only_deal f) raw = clause_transaction f raw) by reflexivity.
  assert (E5 : clause_budget STN NTS (only_deal f) raw = clause_budget STN NTS f raw)
    by reflexivity.
  assert (E6 : clause_rooms STN NTS (only_rooms f) raw = clause_rooms STN NTS f raw)
    by reflexivity.
  assert (E7 : clause_date DP (only_dates f) l = clause_date DP f l) by reflexivity.
  rewrite E1, E2, E3, E4, E5, E6, E7.
  destruct (clause_property_type STN NTS f raw), (clause_region STN NTS f raw),
           (clause_zone STN NTS f raw), (clause_transaction f raw),
           (clause_rooms STN NTS f raw), (clause_budget STN NTS f raw),
           (clause_date DP f l); reflexivity.
Qed.

(** A non-empty lower date bound that does not parse rejects no lead by
    its value (comparing with an Invalid Date is false); it only switches
    on the date clause, which then drops the leads whose own [date_added]
    does not parse. *)
Theorem applyLeadFilters_unparseable_dateFrom (STN : string -> num) (NTS : Q -> string)
    (DP : string -> option Z) (leads : list Lead) (f : LeadFilters) (s : string)
    (Hf : dateFrom f = Some s) (Hne : s <> "") (Hbad : DP (s ++ "T00:00:00")%string = None) :
  applyLeadFilters STN NTS DP leads f =
  js_filter (fun l => match DP (date_added l) with Some _ => true | None => false end)
    (applyLeadFilters STN NTS DP leads (with_dateFrom f None)).
Proof.
  rewrite !applyLeadFilters_eq, !js_filter_compose.
  apply js_filter_ext; intros l.
  unfold lead_matches.
  assert (Ed : clause_date DP f l =
               clause_date DP (with_dateFrom f None) l &&
               match DP (date_added l) with Some _ => true | None => false end).
  { unfold clause_date; cbn [with_dateFrom dateFrom dateTo]; rewrite Hf.
    destruct (String.eqb s "") eqn:Es; [apply String.eqb_eq in Es; contradiction|].
    cbn [truthy_str negb orb andb]; rewrite Es, Hbad.
    destruct (DP (date_added l)) as [t|]; cbn [date_ltb andb negb].
    - destruct (dateTo f) as [u|]; cbn [truthy_str orb]; [|reflexivity].
      destruct (String.eqb u ""); cbn [negb andb orb];
        [reflexivity|destruct (date_ltb _ _); reflexivity].
    - destruct (truthy_str (dateTo f)); reflexivity. }
  rewrite Ed.
  change (clause_property_type STN NTS (with_dateFrom f None) (raw_of l)) with
         (clause_property_type STN NTS f (raw_of l)).
  change (clause_region STN NTS (with_dateFrom f None) (raw_of l)) with
         (clause_region STN NTS f (raw_of l)).
  change (clause_zone STN NTS (with_dateFrom f None) (raw_of l)) with
         (clause_zone STN NTS f (raw_of l)).
  change (clause_transaction (with_dateFrom f None) (raw_of l)) with
         (clause_transaction f (raw_of l)).
  change (clause_rooms STN NTS (with_dateFrom f None) (raw_of l)) with
         (clause_rooms STN NTS f (raw_of l)).
  change (clause_budget STN NTS (with_dateFrom f None) (raw_of l)) with
         (clause_budget STN NTS f (raw_of l)).
  rewrite !andb_assoc; reflexivity.
Qed.

(** ** Facet labels *)

(** A byte that trimming never removes: an ASCII byte that is not
    whitespace (every byte of a multi-byte whitespace is at least 128). *)
Definition trim_kept (c : ascii) : bool :=
  negb (is_js_whitespace c) && Nat.ltb (nat_of_ascii c) 128.

Lemma trim_start_prefix (cs : list ascii) :
  exists pre, cs = app pre (trim_start cs) /\ forall c, In c pre -> trim_kept c = false.
Proof.
  remember (length cs) as n eqn:En; revert cs En.
  induction n as [n IH] using lt_wf_ind; intros cs En.
  destruct cs as [|c rest]; [exists []; split; [reflexivity|intros c []]|].
  assert (Hk : forall b, is_js_whitespace b = true -> trim_kept b = false)
    by (intros b Hb; unfold trim_kept; rewrite Hb; reflexivity).
  assert (Hhi : forall b, Nat.leb 128 (nat_of_ascii b) = true -> trim_kept b = false)
    by (intros b Hb; unfold trim_kept; apply Nat.leb_le in Hb;
        destruct (Nat.ltb_spec (nat_of_ascii b) 128); [lia|apply andb_false_r]).
  cbn [trim_start].
  destruct (is_js_whitespace c) eqn:Ec.
  { destruct (IH (length rest) ltac:(simpl in En; lia) rest eq_refl) as (pre & Hpre & Hin).
    exists (c :: pre); split; [simpl; rewrite <- Hpre; reflexivity|].
    intros x [<-|Hx]; [apply Hk, Ec|apply Hin, Hx]. }
  destruct rest as [|b1 rest1]; [exists []; split; [reflexivity|intros x []]|].
  destruct (is_js_whitespace2 c b1) eqn:E2.
  { destruct (IH (length rest1) ltac:(simpl in En; lia) rest1 eq_refl) as (pre & Hpre & Hin).
    exists (c :: b1 :: pre); split; [simpl; rewrite <- Hpre; reflexivity|].
    unfold is_js_whitespace2 in E2; apply andb_true_iff in E2 as [E2a E2b].
    apply Nat.eqb_eq in E2a, E2b.
    intros x [<-|[<-|Hx]]; [apply Hhi; rewrite E2a; reflexivity|
                           apply Hhi; rewrite E2b; reflexivity|apply Hin, Hx]. }
  destruct rest1 as [|b2 rest2]; [exists []; split; [reflexivity|intros x []]|].
  destruct (is_js_whitespace3 c b1 b2) eqn:E3; [|exists []; split; [reflexivity|intros x []]].
  destruct (IH (length rest2) ltac:(simpl in En; lia) rest2 eq_refl) as (pre & Hpre & Hin).
  exists (c :: b1 :: b2 :: pre); split; [simpl; rewrite <- Hpre; reflexivity|].
  assert (H3 : (128 <= nat_of_ascii c /\ 128 <= nat_of_ascii b1 /\ 128 <= nat_of_ascii b2)%nat).
  { unfold is_js_whitespace3 in E3.
    repeat rewrite orb_true_iff in E3; repeat rewrite andb_true_iff in E3;
    repeat rewrite orb_true_iff in E3; repeat rewrite andb_true_iff in E3.
    rewrite !Nat.eqb_eq, !Nat.leb_le in E3; lia. }
  intros x [<-|[<-|[<-|Hx]]]; try (apply Hhi, Nat.leb_le; lia); apply Hin, Hx.
Qed.

Lemma trim_end_rev_prefix (cs : list ascii) :
  exists pre, cs = app pre (trim_end_rev cs) /\ forall c, In c pre -> trim_kept c = false.
Proof.
  remember (length cs) as n eqn:En; revert cs En.
  induction n as [n IH] using lt_wf_ind; intros cs En.
  destruct cs as [|c rest]; [exists []; split; [reflexivity|intros c []]|].
  assert (Hk : forall b, is_js_whitespace b = true -> trim_kept b = false)
    by (intros b Hb; unfold trim_kept; rewrite Hb; reflexivity).
  assert (Hhi : forall b, Nat.leb 128 (nat_of_ascii b) = true -> trim_kept b = false)
    by (intros b Hb; unfold trim_kept; apply Nat.leb_le in Hb;
        destruct (Nat.ltb_spec (nat_of_ascii b) 128); [lia|apply andb_false_r]).
  cbn [trim_end_rev].
  destruct (is_js_whitespace c) eqn:Ec.
  { destruct (IH (length rest) ltac:(simpl in En; lia) rest eq_refl) as (pre & Hpre & Hin).
    exists (c :: pre); split; [simpl; rewrite <- Hpre; reflexivity|].
    intros x [<-|Hx]; [apply Hk, Ec|apply Hin, Hx]. }
  destruct rest as [|b1 rest1]; [exists []; split; [reflexivity|intros x []]|].
  destruct (is_js_whitespace2 b1 c) eqn:E2.
  { destruct (IH (length rest1) ltac:(simpl in En; lia) rest1 eq_refl) as (pre & Hpre & Hin).
    exists (c :: b1 :: pre); split; [simpl; rewrite <- Hpre; reflexivity|].
    unfold is_js_whitespace2 in E2; apply andb_true_iff in E2 as [E2a E2b].
    apply Nat.eqb_eq in E2a, E2b.
    intros x [<-|[<-|Hx]]; [apply Hhi; rewrite E2b; reflexivity|
                           apply Hhi; rewrite E2a; reflexivity|apply Hin, Hx]. }
  destruct rest1 as [|b2 rest2]; [exists []; split; [reflexivity|intros x []]|].
  destruct (is_js_whitespace3 b2 b1 c) eqn:E3; [|exists []; split; [reflexivity|intros x []]].
  destruct (IH (length rest2) ltac:(simpl in En; lia) rest2 eq_refl) as (pre & Hpre & Hin).
  exists (c :: b1 :: b2 :: pre); split; [simpl; rewrite <- Hpre; reflexivity|].
  assert (H3 : (128 <= nat_of_ascii c /\ 128 <= nat_of_ascii b1 /\ 128 <= nat_of_ascii b2)%nat).
  { unfold is_js_whitespace3 in E3.
    repeat rewrite orb_true_iff in E3; repeat rewrite andb_true_iff in E3;
    repeat rewrite orb_true_iff in E3; repeat rewrite andb_true_iff in E3.
    rewrite !Nat.eqb_eq, !Nat.leb_le in E3; lia. }
  intros x [<-|[<-|[<-|Hx]]]; try (apply Hhi, Nat.leb_le; lia); apply Hin, Hx.
Qed.

Lemma js_trim_keeps (c : ascii) (s : string) :
  In c (list_ascii_of_string s) -> trim_kept c = true ->
  In c (list_ascii_of_string (js_trim s)).
Proof.
  intros Hin Hw; unfold js_trim.
  rewrite list_ascii_of_string_of_list_ascii; apply -> in_rev.
  destruct (trim_start_prefix (list_ascii_of_string s)) as (p1 & E1 & H1).
  destruct (trim_end_rev_prefix (rev (trim_start (list_ascii_of_string s)))) as (p2 & E2 & H2).
  rewrite E1 in Hin; apply in_app_or in Hin as [Hin|Hin]; [rewrite (H1 c Hin) in Hw; discriminate|].
  apply in_rev in Hin; rewrite E2 in Hin.
  apply in_app_or in Hin as [Hin|Hin]; [rewrite (H2 c Hin) in Hw; discriminate|exact Hin].
Qed.

Lemma js_trim_nonblank (c : ascii) (s : string) :
  In c (list_ascii_of_string s) -> trim_kept c = true ->
  (0 < String.length (js_trim s))%nat.
Proof.
  intros Hin Hw; pose proof (js_trim_keeps c s Hin Hw) as H.
  destruct (js_trim s); [contradiction|simpl; lia].
Qed.

Lemma extractLabel_nonblank (raw : list (string * json)) (keys : list string) (v : string) :
  extractLabel raw keys = Some v -> (0 < String.length (js_trim v))%nat.
Proof.
  induction keys as [|k keys IH]; simpl; [discriminate|].
  destruct (obj_get raw k) as [[| | | s | |]|]; try exact IH.
  destruct (Nat.ltb 0 (String.length (js_trim s))) eqn:E; [|exact IH].
  intros H; injection H as <-; apply Nat.ltb_lt, E.
Qed.

Lemma facet_map_labels key (lab : list (string * json) -> Q -> string) (xs : list Lead) :
  forall m,
  (forall raw q, (0 < String.length (js_trim (lab raw q)))%nat) ->
  (forall e, In e m -> (0 < String.length (js_trim (snd e)))%nat) ->
  forall e, In e (fold_left (facet_map_step key lab) xs m) ->
  (0 < String.length (js_trim (snd e)))%nat.
Proof.
  induction xs as [|x xs IH]; intros m Hlab Hm; simpl; [exact Hm|].
  apply IH; [exact Hlab|].
  intros e; unfold facet_map_step; destruct (key x) as [q|]; [|apply Hm].
  destruct (map_has m q); [apply Hm|].
  intros He; apply in_app_or in He as [He|[<-|[]]]; [apply Hm, He|apply Hlab].
Qed.

Lemma mapToOptions_labels (lc : string -> string -> Z) (m : list (Q * string)) :
  (forall e, In e m -> (0 < String.length (js_trim (snd e)))%nat) ->
  forall o, In o (mapToOptions lc m) -> (0 < String.length (js_trim (label o)))%nat.
Proof.
  intros Hm o Ho; unfold mapToOptions in Ho.
  apply in_map_iff in Ho as (e & <- & He); simpl.
  apply Hm, (Permutation_in e (js_sort_perm _ m) He).
Qed.

(** Every region and zone option that [deriveFilterOptions] offers has a
    label that is not blank: [extractLabel] only returns text with a
    non-whitespace character, and the placeholders [Județ #id] and
    [Zonă #id] start with a letter. *)
Theorem deriveFilterOptions_labels_nonblank (STN : string -> num) (NTS : Q -> string)
    (localeCompare : string -> string -> Z) (leads : list Lead) (o : OptionItem) :
  In o (regions (deriveFilterOptions STN NTS localeCompare leads)) \/
  In o (zones (deriveFilterOptions STN NTS localeCompare leads)) ->
  (0 < String.length (js_trim (label o)))%nat.
Proof.
  destruct (facet_scan_maps STN NTS leads {| propertyTypeSet := []; regionMap := []; zoneMap := [] |})
    as (Hr & Hz & _).
  unfold deriveFilterOptions, facet_scan; cbn [regions zones].
  rewrite Hr, Hz; cbn [regionMap zoneMap].
  assert (HJ : forall x, In (ascii_of_nat 74) (list_ascii_of_string ("Județ #" ++ x)%string))
    by (intros x; left; reflexivity).
  assert (HZ : forall x, In (ascii_of_nat 90) (list_ascii_of_string ("Zonă #" ++ x)%string))
    by (intros x; left; reflexivity).
  intros [Ho|Ho]; (eapply mapToOptions_labels; [|exact Ho]);
    (apply facet_map_labels; [|intros e []]).
  - intros raw q; unfold region_label.
    destruct (extractLabel raw _) as [v|] eqn:E; [exact (extractLabel_nonblank _ _ _ E)|].
    exact (js_trim_nonblank _ _ (HJ _) eq_refl).
  - intros raw q; unfold zone_label.
    destruct (extractLabel raw _) as [v|] eqn:E; [exact (extractLabel_nonblank _ _ _ E)|].
    exact (js_trim_nonblank _ _ (HZ _) eq_refl).
Qed.

Lemma js_filter_none {A : Type} (p : A -> bool) (l : list A) :
  (forall x, In x l -> p x = false) -> js_filter p l = [].
Proof.
  induction l as [|x l IH]; intros H; simpl; [reflexivity|].
  rewrite (H x (or_introl eq_refl)); apply IH; intros y Hy; apply H; right; exact Hy.
Qed.

(** When some lead has a numeric property type but none of them is in
    [PROPERTY_TYPE_OPTIONS], the property-type facet is empty: the
    fallback to the whole catalogue only applies when no lead has a
    property type at all. *)
Theorem deriveFilterOptions_unknown_types_empty (STN : string -> num) (NTS : Q -> string)
    (localeCompare : string -> string -> Z) (leads : list Lead)
    (Hsome : exists l q, In l leads /\ toNumber STN NTS (obj_get (raw_of l) "property_type") = Some q)
    (Hunknown : forall l q o, In l leads ->
       toNumber STN NTS (obj_get (raw_of l) "property_type") = Some q ->
       In o PROPERTY_TYPE_OPTIONS -> Qeq_bool (value o) q = false) :
  optPropertyTypes (deriveFilterOptions STN NTS localeCompare leads) = [].
Proof.
  set (ptype := fun l => toNumber STN NTS (obj_get (raw_of l) "property_type")).
  destruct (facet_scan_maps STN NTS leads {| propertyTypeSet := []; regionMap := []; zoneMap := [] |})
    as (_ & _ & Hp).
  change (fold_left (facet_step STN NTS) leads
            {| propertyTypeSet := []; regionMap := []; zoneMap := [] |})
    with (facet_scan STN NTS leads) in Hp.
  unfold deriveFilterOptions; cbn [optPropertyTypes].
  rewrite Hp; cbn [propertyTypeSet].
  pose proof (ptype_fold_has ptype leads []) as Hhas.
  pose proof (ptype_fold_some ptype leads []) as Hne.
  unfold ptype in Hhas, Hne; cbv beta in Hhas, Hne.
  destruct (fold_left _ leads []) as [|a s] eqn:F.
  - exfalso; apply Hne; [right|reflexivity].
    destruct Hsome as (l & q & Hl & Hq).
    apply existsb_exists; exists l; split; [exact Hl|rewrite Hq; reflexivity].
  - apply js_filter_none; intros o Ho.
    rewrite Hhas; cbn [set_has existsb orb].
    match goal with |- ?e = false => destruct e eqn:E; [|reflexivity] end.
    apply existsb_exists in E as (l & Hl & Hq).
    destruct (toNumber STN NTS (obj_get (raw_of l) "property_type")) as [q|] eqn:Eq;
      [|discriminate].
    rewrite (Hunknown l q o Hl Eq Ho) in Hq; discriminate.
Qed.

(** ** Grouping by last outreach *)

Lemma outreach_loop_fold (parseISO : string -> option Z) (today : Z) (lab : Lead -> string)
    (xs : list Lead) :
  forall m,
  (forall x, In x xs -> formatDayHeader parseISO today (outreach_key x) = Ok (lab x)) ->
  outreach_loop parseISO today m xs = Ok (fold_left (fun m x => bucket_add m (lab x) x) xs m).
Proof.
  induction xs as [|x rest IH]; intros m Hl; simpl; [reflexivity|].
  rewrite (Hl x (or_introl eq_refl)).
  apply IH; intros y Hy; apply Hl; right; exact Hy.
Qed.

Lemma outreach_loop_throws (parseISO : string -> option Z) (today : Z) (xs : list Lead) (x : Lead) :
  forall m, In x xs ->
  formatDayHeader parseISO today (outreach_key x) = Throw (RangeError "Invalid time value") ->
  outreach_loop parseISO today m xs = Throw (RangeError "Invalid time value").
Proof.
  induction xs as [|y rest IH]; intros m Hx Hthrow; [contradiction|]; simpl.
  destruct (formatDayHeader parseISO today (outreach_key y)) as [lbl|e] eqn:Ey.
  - destruct Hx as [<-|Hx]; [congruence|].
    apply IH; assumption.
  - f_equal; apply (formatDayHeader_throw_inv parseISO today (outreach_key y)), Ey.
Qed.

(** When every lead's last-outreach date (the last entry's [date], else
    [date_added]) is non-empty and parses, [groupByLastOutreach] does not
    fail; its buckets hold every lead exactly once, have distinct labels,
    are non-empty with every member carrying the bucket's day label and
    the first member the most recent, and come in strictly descending
    recency of their first members. *)
Theorem groupByLastOutreach_buckets (parseISO : string -> option Z) (today : Z)
    (leads : list Lead) (Hparse : outreach_keys_parse parseISO leads = true) :
  exists groups,
    groupByLastOutreach parseISO today leads = Ok groups /\
    Permutation (concat (map group_leads groups)) leads /\
    NoDup (map group_label groups) /\
    Forall (fun g => exists h rest, group_leads g = h :: rest /\
              Forall (fun l => formatDayHeader parseISO today (outreach_key l) = Ok (group_label g))
                     (h :: rest) /\
              Forall (time_ge (outreach_time parseISO) h) rest) groups /\
    StronglySorted (heads_before (outreach_time parseISO)) groups.
Proof.
  set (T := fun x => match outreach_time parseISO x with Some t => t | None => 0%Z end).
  set (lab := fun x => match formatDayHeader parseISO today (outreach_key x) with
                       | Ok l => l | Throw _ => "" end).
  set (Good := fun x => In x leads /\ outreach_key x <> "" /\ parseISO (outreach_key x) = Some (T x)).
  assert (HG : forall x, In x leads -> Good x).
  { intros x Hx; unfold outreach_keys_parse in Hparse; rewrite forallb_forall in Hparse.
    specialize (Hparse x Hx); apply andb_true_iff in Hparse as [Hne Hp].
    split; [exact Hx|split].
    - intros E; rewrite E in Hne; discriminate.
    - unfold T, outreach_time in *; destruct (parseISO (outreach_key x)); [reflexivity|discriminate]. }
  assert (Hlab : forall x, Good x -> formatDayHeader parseISO today (outreach_key x) = Ok (lab x)).
  { intros x (_ & Hne & Hp).
    destruct (formatDayHeader_parsed_ok parseISO today _ _ Hne Hp) as [l Hl].
    unfold lab; rewrite Hl; reflexivity. }
  assert (Hsame : forall a b, Good a -> Good b -> day_of (T a) = day_of (T b) -> lab a = lab b).
  { intros a b (_ & Ha1 & Ha2) (_ & Hb1 & Hb2) Hd; unfold lab.
    rewrite (formatDayHeader_same_day parseISO today _ _ _ _ Ha1 Hb1 Ha2 Hb2 Hd); reflexivity. }
  set (sorted := js_sort (outreach_cmp parseISO) leads).
  assert (Hsort : sorted = js_sort (fun a b => (T b - T a)%Z) leads).
  { unfold sorted; apply js_sort_ext; intros a b Ha Hb.
    destruct (HG a Ha) as (_ & _ & Pa); destruct (HG b Hb) as (_ & _ & Pb).
    unfold outreach_cmp, outreach_time; rewrite Pa, Pb; reflexivity. }
  assert (Hperm : Permutation sorted leads) by (unfold sorted; apply js_sort_perm).
  assert (Hin : forall x, In x sorted -> In x leads) by (intros x Hx; apply (Permutation_in x Hperm Hx)).
  assert (Hdesc : StronglySorted (fun a b => (T b <= T a)%Z) sorted).
  { rewrite Hsort.
    apply (StronglySorted_impl_in (fun a b => (T b - T a <= 0)%Z)); [intros; lia|].
    apply Sorted_StronglySorted; [intros a b c Hab Hbc; lia|].
    apply (js_sort_sorted (fun a b => (T b - T a)%Z)); intros a b; lia. }
  assert (HGs : Forall Good sorted) by (apply Forall_forall; intros x Hx; apply HG, Hin, Hx).
  assert (Hloop : outreach_loop parseISO today [] sorted =
                  Ok (fold_left (fun m x => bucket_add m (lab x) x) sorted [])).
  { apply outreach_loop_fold; intros x Hx; apply Hlab, HG, Hin, Hx. }
  destruct (group_fold_inv T lab Good sorted sorted [] Hdesc HGs
              ltac:(intros a b Ha Hb E; apply Hsame; [exact Ha|exact Hb|rewrite E; reflexivity])
              (Forall_nil _) (SSorted_nil _) ltac:(intros e y z []) (NoDup_nil _)
              ltac:(intros e y []) (Permutation_refl _))
    as (Hwf & Hss & Hnd & Hgood & Hp).
  set (M := fold_left (fun m x => bucket_add m (lab x) x) sorted []) in *.
  unfold groupByLastOutreach; change (js_sort (outreach_cmp parseISO) leads) with sorted.
  rewrite Hloop.
  exists (map (fun e => {| group_label := fst e; group_leads := snd e |}) M).
  assert (Hml : map group_leads (map (fun e => {| group_label := fst e; group_leads := snd e |}) M)
                = map snd M) by (rewrite map_map; reflexivity).
  rewrite Forall_forall in Hwf.
  split; [reflexivity|].
  split; [rewrite Hml; exact (Permutation_trans Hp Hperm)|].
  split; [rewrite map_map; exact Hnd|].
  split.
  { apply Forall_forall; intros g Hg; apply in_map_iff in Hg as (e & <- & He).
    destruct (Hwf e He) as (h & r & Hb & Hlb & Hrec).
    exists h, r; simpl; split; [exact Hb|split].
    - rewrite Forall_forall in *; intros l Hl.
      rewrite (Hlab l (Hgood e l He ltac:(rewrite Hb; exact Hl))); f_equal; apply Hlb, Hl.
    - rewrite Forall_forall in *; intros y Hy.
      destruct (Hgood e h He ltac:(rewrite Hb; left; reflexivity)) as (_ & _ & Ph).
      destruct (Hgood e y He ltac:(rewrite Hb; right; exact Hy)) as (_ & _ & Py).
      unfold time_ge, outreach_time; rewrite Ph, Py; apply Hrec, Hy. }
  apply (StronglySorted_map_in _ (bucket_precedes T)); [|exact Hss].
  intros e1 e2 He1 He2 Hpr.
  destruct (Hwf e1 He1) as (h1 & r1 & Hb1 & _ & _).
  destruct (Hwf e2 He2) as (h2 & r2 & Hb2 & _ & _).
  unfold bucket_precedes, head_time in Hpr; rewrite Hb1, Hb2 in Hpr.
  destruct (Hgood e1 h1 He1 ltac:(rewrite Hb1; left; reflexivity)) as (_ & _ & P1).
  destruct (Hgood e2 h2 He2 ltac:(rewrite Hb2; left; reflexivity)) as (_ & _ & P2).
  unfold heads_before, time_gt, outreach_time; simpl; rewrite Hb1, Hb2, P1, P2; exact Hpr.
Qed.

(** A lead whose last-outreach date is non-empty but does not parse makes
    [groupByLastOutreach] throw [RangeError: Invalid time value], as
    [groupByDateAdded] does. *)
Theorem groupByLastOutreach_unparseable_throws (parseISO : string -> option Z) (today : Z)
    (leads : list Lead) (l : Lead) :
  In l leads -> outreach_key l <> "" -> outreach_time parseISO l = None ->
  groupByLastOutreach parseISO today leads = Throw (RangeError "Invalid time value").
Proof.
  intros Hin Hne Hnone; unfold groupByLastOutreach.
  rewrite (outreach_loop_throws parseISO today (js_sort (outreach_cmp parseISO) leads) l).
  - reflexivity.
  - apply (Permutation_in l (Permutation_sym (js_sort_perm _ leads)) Hin).
  - unfold formatDayHeader, ensureDate.
    unfold outreach_time in Hnone.
    rewrite (proj2 (String.eqb_neq _ _) Hne), Hnone; reflexivity.
Qed.

Lemma bucket_add_keeps (m : list (string * list Lead)) (k k0 : string) (y x : Lead) :
  (exists b, In (k0, b) m /\ In x b) ->
  exists b, In (k0, b) (bucket_add m k y) /\ In x b.
Proof.
  induction m as [|[k' b'] m IH]; simpl; intros (b & Hb & Hx); [contradiction|].
  destruct (String.eqb k' k).
  - destruct Hb as [Hb|Hb].
    + injection Hb as -> ->; exists (b ++ [y]); split; [left; reflexivity|].
      apply in_or_app; left; exact Hx.
    + exists b; split; [right; exact Hb|exact Hx].
  - destruct Hb as [Hb|Hb].
    + exists b; split; [left; exact Hb|exact Hx].
    + destruct (IH (ex_intro _ b (conj Hb Hx))) as (b2 & Hb2 & Hx2).
      exists b2; split; [right; exact Hb2|exact Hx2].
Qed.

Lemma bucket_add_has (m : list (string * list Lead)) (k : string) (y : Lead) :
  exists b, In (k, b) (bucket_add m k y) /\ In y b.
Proof.
  induction m as [|[k' b'] m IH]; simpl.
  - exists [y]; split; left; reflexivity.
  - destruct (String.eqb k' k) eqn:E.
    + apply String.eqb_eq in E; subst k'.
      exists (b' ++ [y]); split; [left; reflexivity|apply in_or_app; right; left; reflexivity].
    + destruct IH as (b & Hb & Hy); exists b; split; [right; exact Hb|exact Hy].
Qed.

Lemma outreach_loop_members (parseISO : string -> option Z) (today : Z) (xs : list Lead) :
  forall m m', outreach_loop parseISO today m xs = Ok m' ->
  (forall k0 x, (exists b, In (k0, b) m /\ In x b) -> exists b, In (k0, b) m' /\ In x b) /\
  (forall x lbl, In x xs -> formatDayHeader parseISO today (outreach_key x) = Ok lbl ->
     exists b, In (lbl, b) m' /\ In x b).
Proof.
  induction xs as [|y rest IH]; intros m m' Hl; simpl in Hl.
  - injection Hl as <-; split; [intros k0 x H; exact H|intros x lbl []].
  - destruct (formatDayHeader parseISO today (outreach_key y)) as [l|e] eqn:Ey; [|discriminate].
    destruct (IH _ _ Hl) as [Hk Hn]; split.
    + intros k0 x H; apply Hk, bucket_add_keeps, H.
    + intros x lbl [<-|Hx] Hf.
      * rewrite Ey in Hf; injection Hf as <-; apply Hk, bucket_add_has.
      * apply Hn; assumption.
Qed.

(** A lead whose last outreach entry has the empty string as its [date]
    is filed under ["Unknown date"], whatever its [date_added]: [??] only
    falls back on [null] and [undefined]. *)
Theorem groupByLastOutreach_blank_entry_date (parseISO : string -> option Z) (today : Z)
    (leads : list Lead) (groups : list LeadGroup) (l : Lead) (e : OutreachHistoryEntry)
    (Hok : groupByLastOutreach parseISO today leads = Ok groups) (Hl : In l leads)
    (Hlast : last_opt (outreach_history l) = Some e) (Hdate : entry_date e = Some "") :
  exists g, In g groups /\ group_label g = "Unknown date" /\ In l (group_leads g).
Proof.
  unfold groupByLastOutreach in Hok.
  destruct (outreach_loop parseISO today [] (js_sort (outreach_cmp parseISO) leads)) as [m|err]
    eqn:Em; [|discriminate].
  injection Hok as <-.
  destruct (outreach_loop_members parseISO today _ _ _ Em) as [_ Hn].
  assert (Hk : outreach_key l = "") by (unfold outreach_key; rewrite Hlast, Hdate; reflexivity).
  destruct (Hn l "Unknown date"
              (Permutation_in l (Permutation_sym (js_sort_perm _ leads)) Hl)
              ltac:(rewrite Hk; reflexivity)) as (b & Hb & Hlb).
  exists {| group_label := "Unknown date"; group_leads := b |}; simpl.
  split; [|split; [reflexivity|exact Hlb]].
  apply in_map_iff; exists ("Unknown date", b); split; [reflexivity|exact Hb].
Qed.

(** ** Date and time stamps *)

Lemma string_append_assoc (a b c : string) :
  ((a ++ b) ++ c)%string = (a ++ (b ++ c))%string.
Proof. induction a as [|x a IH]; simpl; [reflexivity|rewrite IH; reflexivity]. Qed.

Lemma format_time_throw_inv (date : option Z) (p : TimePattern) (e : js_error) :
  format_time date p = Throw e -> date = None /\ e = RangeError "Invalid time value".
Proof.
  unfold format_time; destruct date as [t|]; [|intros H; injection H as <-; auto].
  destruct (civil_from_days (day_of t)) as [[y m] d]; destruct p; discriminate.
Qed.

(** The three day and time formatters of dates.ts fail together: each
    throws exactly on a non-empty string that [parseISO] rejects, and the
    only error they throw is [RangeError: Invalid time value]; the empty
    string gives the placeholders ["Unknown date"], ["Unknown time"] and
    [""]. *)
Theorem formatters_throw_iff (parseISO : string -> option Z) (today now : Z) (s : string) :
  (formatDayHeader parseISO today s = Throw (RangeError "Invalid time value") <->
     s <> "" /\ parseISO s = None) /\
  (formatFullDateTime parseISO s = Throw (RangeError "Invalid time value") <->
     s <> "" /\ parseISO s = None) /\
  (formatMessageTimestamp parseISO now s = Throw (RangeError "Invalid time value") <->
     s <> "" /\ parseISO s = None) /\
  (forall e, formatDayHeader parseISO today s = Throw e \/ formatFullDateTime parseISO s = Throw e \/
             formatMessageTimestamp parseISO now s = Throw e -> e = RangeError "Invalid time value") /\
  formatDayHeader parseISO today "" = Ok "Unknown date" /\
  formatFullDateTime parseISO "" = Ok "Unknown time" /\
  formatMessageTimestamp parseISO now "" = Ok "".
Proof.
  assert (Hday : formatDayHeader parseISO today s = Throw (RangeError "Invalid time value") <->
                 s <> "" /\ parseISO s = None).
  { split.
    - unfold formatDayHeader, ensureDate.
      destruct (String.eqb s "") eqn:Es; [discriminate|apply String.eqb_neq in Es].
      destruct (parseISO s) as [t|] eqn:Pt; [|intros _; split; [exact Es|reflexivity]].
      intros H; exfalso.
      destruct (formatDayHeader_parsed_ok parseISO today s t Es Pt) as [l Hl].
      unfold formatDayHeader, ensureDate in Hl.
      rewrite (proj2 (String.eqb_neq _ _) Es), Pt in Hl; congruence.
    - intros [Hne Hn]; unfold formatDayHeader, ensureDate.
      rewrite (proj2 (String.eqb_neq _ _) Hne), Hn; reflexivity. }
  assert (Hgen : forall r, (r = formatFullDateTime parseISO s \/ r = formatMessageTimestamp parseISO now s) ->
            forall e, r = Throw e -> s <> "" /\ parseISO s = None /\ e = RangeError "Invalid time value").
  { intros r Hr e He.
    unfold formatFullDateTime, formatMessageTimestamp, ensureDate in Hr.
    destruct (String.eqb s "") eqn:Es; [destruct Hr; subst r; discriminate|].
    apply String.eqb_neq in Es.
    destruct Hr as [Hr|Hr]; rewrite He in Hr; symmetry in Hr.
    - apply format_time_throw_inv in Hr as [Hn He']; auto.
    - destruct (opt_Z_eqb _ 0); [|destruct (isSameYear _ _)];
        apply format_time_throw_inv in Hr as [Hn He']; auto. }
  split; [exact Hday|split; [|split; [|split; [|split; [reflexivity|split; reflexivity]]]]].
  - split; [intros H; destruct (Hgen _ (or_introl eq_refl) _ H) as (? & ? & _); auto|].
    intros [Hne Hn]; unfold formatFullDateTime, ensureDate.
    rewrite (proj2 (String.eqb_neq _ _) Hne), Hn; reflexivity.
  - split; [intros H; destruct (Hgen _ (or_intror eq_refl) _ H) as (? & ? & _); auto|].
    intros [Hne Hn]; unfold formatMessageTimestamp, ensureDate.
    rewrite (proj2 (String.eqb_neq _ _) Hne), Hn; reflexivity.
  - intros e [H|[H|H]].
    + exact (formatDayHeader_throw_inv parseISO today s e H).
    + exact (proj2 (proj2 (Hgen _ (or_introl eq_refl) e H))).
    + exact (proj2 (proj2 (Hgen _ (or_intror eq_refl) e H))).
Qed.

Lemma string_length_app (a b : string) :
  String.length (a ++ b) = (String.length a + String.length b)%nat.
Proof. induction a as [|c a IH]; simpl; [reflexivity|rewrite IH; reflexivity]. Qed.

Lemma year_of_same_day (t u : Z) : day_of t = day_of u -> year_of t = year_of u.
Proof. intros E; unfold year_of; rewrite E; reflexivity. Qed.

(** The message stamp of the chats list is the full stamp [d MMM yyyy •
    HH:mm] exactly when the value is non-empty and either does not parse
    (both throw the same error) or falls in a year other than the current
    one; and when both give text, the message stamp is never the longer
    one. *)
Theorem formatMessageTimestamp_is_full_iff (parseISO : string -> option Z) (now : Z) (s : string) :
  (formatMessageTimestamp parseISO now s = formatFullDateTime parseISO s <->
     s <> "" /\ match parseISO s with None => True | Some t => year_of t <> year_of now end) /\
  (forall a b, formatMessageTimestamp parseISO now s = Ok a -> formatFullDateTime parseISO s = Ok b ->
     (String.length a <= String.length b)%nat).
Proof.
  unfold formatFullDateTime, formatMessageTimestamp, ensureDate.
  destruct (String.eqb_spec s "") as [->|Hne].
  { split; [split; [discriminate|intros [H _]; contradiction]|].
    intros a b Ha Hb; injection Ha as <-; simpl; lia. }
  destruct (parseISO s) as [t|] eqn:Hp.
  2: { split; [split; [intros _; split; [exact Hne|exact I]|reflexivity]|].
       intros a b Ha; discriminate Ha. }
  unfold differenceInCalendarDays, opt_Z_eqb, isSameYear, format_time.
  destruct (civil_from_days (day_of t)) as [[y m] d] eqn:Ec.
  destruct (Z.eqb_spec (day_of now - day_of t) 0) as [Hd|Hd].
  - assert (Hy : year_of t = year_of now) by (apply year_of_same_day; lia).
    split; [split|].
    + intros H; injection H as H; apply (f_equal String.length) in H.
      repeat progress (rewrite ?string_length_app in H; cbn [String.length] in H); lia.
    + intros [_ H]; contradiction.
    + intros a b Ha Hb; injection Ha as <-; injection Hb as <-.
      repeat progress (rewrite ?string_length_app; cbn [String.length]); lia.
  - destruct (Z.eqb_spec (year_of t) (year_of now)) as [Hy|Hy].
    + split; [split|].
      * intros H; injection H as H; apply (f_equal String.length) in H.
        repeat progress (rewrite ?string_length_app in H; cbn [String.length] in H); lia.
      * intros [_ H]; contradiction.
      * intros a b Ha Hb; injection Ha as <-; injection Hb as <-.
        repeat progress (rewrite ?string_length_app; cbn [String.length]); lia.
    + split; [split; [intros _; split; [exact Hne|exact Hy]|reflexivity]|].
      intros a b Ha Hb; rewrite Ha in Hb; injection Hb as <-; lia.
Qed.

(** ** Selection and single send of the lead queue page *)

Lemma str_set_has_iff (s : list string) (x : string) : str_set_has s x = true <-> In x s.
Proof.
  unfold str_set_has; rewrite existsb_exists; split.
  - intros (y & Hy & E); apply String.eqb_eq in E; subst; exact Hy.
  - intros H; exists x; split; [exact H|apply String.eqb_refl].
Qed.

Lemma str_set_add_in (s : list string) (x y : string) : In y (str_set_add s x) <-> In y s \/ y = x.
Proof.
  unfold str_set_add; destruct (existsb (String.eqb x) s) eqn:E.
  - apply (str_set_has_iff s x) in E; split; [auto|intros [H| ->]; assumption].
  - rewrite in_app_iff; simpl; split; intros [H|H]; auto.
    + destruct H as [H|[]]; auto.
Qed.

Lemma str_set_add_fresh (s : list string) (x : string) : ~ In x s -> str_set_add s x = app s [x].
Proof.
  intros Hn; unfold str_set_add.
  destruct (existsb (String.eqb x) s) eqn:E; [|reflexivity].
  apply (str_set_has_iff s x) in E; contradiction.
Qed.

Lemma str_set_delete_in (s : list string) (x y : string) :
  In y (str_set_delete s x) <-> In y s /\ y <> x.
Proof.
  unfold str_set_delete; induction s as [|z s IH]; simpl; [tauto|].
  destruct (String.eqb z x) eqn:E; simpl.
  - apply String.eqb_eq in E; subst z; rewrite IH; split; [tauto|].
    intros [[<-|H] Hn]; [contradiction|auto].
  - apply String.eqb_neq in E; rewrite IH; split.
    + intros [<-|[H Hn]]; auto.
    + intros [[<-|H] Hn]; auto.
Qed.

Lemma js_filter_NoDup {A : Type} (p : A -> bool) (l : list A) : NoDup l -> NoDup (js_filter p l).
Proof.
  induction l as [|x l IH]; intros Hnd; simpl; [constructor|].
  apply NoDup_cons_iff in Hnd as [Hx Hnd].
  destruct (p x); [constructor; [|apply IH, Hnd]|apply IH, Hnd].
  intros H; apply Hx; apply (subseq_In _ _ _ (js_filter_subseq p l) H).
Qed.

Lemma str_set_has_add (s : list string) (x y : string) :
  str_set_has (str_set_add s y) x = str_set_has s x || String.eqb x y.
Proof.
  apply eq_true_iff_eq; rewrite orb_true_iff, !str_set_has_iff, str_set_add_in, String.eqb_eq.
  reflexivity.
Qed.

Lemma str_set_fold_has (l s : list string) (x : string) :
  str_set_has (fold_left str_set_add l s) x = str_set_has s x || existsb (String.eqb x) l.
Proof.
  revert s; induction l as [|y l IH]; intros s; simpl; [rewrite orb_false_r; reflexivity|].
  rewrite IH, str_set_has_add, orb_assoc; reflexivity.
Qed.

Lemma prune_fold (P : string -> bool) (prev : list string) :
  forall acc, NoDup prev -> (forall x, In x prev -> ~ In x acc) ->
  fold_left (fun next id => if P id then str_set_add next id else next) prev acc =
  app acc (js_filter P prev).
Proof.
  induction prev as [|id rest IH]; intros acc Hnd Hfresh; simpl; [rewrite app_nil_r; reflexivity|].
  apply NoDup_cons_iff in Hnd as [Hid Hnd].
  destruct (P id).
  - rewrite (str_set_add_fresh acc id (Hfresh id (or_introl eq_refl))).
    rewrite IH; [rewrite <- app_assoc; reflexivity|exact Hnd|].
    intros x Hx Hin; apply in_app_or in Hin as [Hin|[<-|[]]].
    + exact (Hfresh x (or_intror Hx) Hin).
    + contradiction.
  - apply IH; [exact Hnd|intros x Hx; apply Hfresh; right; exact Hx].
Qed.

(** Narrowing the visible leads narrows the selection to exactly the
    selected ids that belong to a visible lead, kept in the order they were
    selected in. *)
Theorem prune_selection_spec (filteredLeads : list Lead) (prev : list string)
    (Hnd : NoDup prev) :
  prune_selection filteredLeads prev =
    js_filter (fun id => existsb (fun l => String.eqb (property_id l) id) filteredLeads) prev.
Proof.
  unfold prune_selection.
  rewrite (prune_fold _ prev [] Hnd (fun x _ H => H)); simpl.
  apply js_filter_ext; intros id.
  rewrite str_set_fold_has; simpl.
  induction filteredLeads as [|l ls IH]; simpl; [reflexivity|].
  rewrite IH, String.eqb_sym; reflexivity.
Qed.

Lemma prune_selection_in (filteredLeads : list Lead) (prev : list string) (id : string) :
  In id (prune_selection filteredLeads prev) ->
  In id prev /\ exists l, In l filteredLeads /\ property_id l = id.
Proof.
  unfold prune_selection.
  set (allowed := fold_left str_set_add (map property_id filteredLeads) []).
  assert (Hgen : forall acc, In id (fold_left (fun next id => if str_set_has allowed id
                                                          then str_set_add next id else next) prev acc) ->
                 In id acc \/ (In id prev /\ str_set_has allowed id = true)).
  { induction prev as [|x rest IH]; intros acc H; simpl in *; [left; exact H|].
    destruct (IH _ H) as [Ha|[Hr Hal]]; [|right; split; [right; exact Hr|exact Hal]].
    destruct (str_set_has allowed x) eqn:Ex; [|left; exact Ha].
    apply str_set_add_in in Ha as [Ha| ->]; [left; exact Ha|right; split; [left; reflexivity|exact Ex]]. }
  intros H; destruct (Hgen [] H) as [[]|[Hp Hal]]; split; [exact Hp|].
  unfold allowed in Hal; rewrite str_set_fold_has in Hal; simpl in Hal.
  apply existsb_exists in Hal as (y & Hy & E); apply String.eqb_eq in E; subst y.
  apply in_map_iff in Hy as (l & Hl & Hin); exists l; split; assumption.
Qed.

Lemma send_loop_log (sendWhatsApp : list QueueEffect -> string -> bool) (ids : list string) :
  forall s f log, exists sent,
    snd (send_loop sendWhatsApp ids s f log) = app log sent /\
    forall e, In e sent -> exists id ok, e = SendWhatsApp id ok /\ In id ids.
Proof.
  induction ids as [|x rest IH]; intros s f log; simpl.
  - exists []; split; [rewrite app_nil_r; reflexivity|intros e []].
  - destruct (IH (if sendWhatsApp log x then S s else s) (if sendWhatsApp log x then f else S f)
                 (app log [SendWhatsApp x (sendWhatsApp log x)])) as (sent & Hs & He).
    exists (SendWhatsApp x (sendWhatsApp log x) :: sent); split.
    + rewrite Hs, <- app_assoc; reflexivity.
    + intros e [<-|Hin]; [exists x, (sendWhatsApp log x); split; [reflexivity|left; reflexivity]|].
      destruct (He e Hin) as (id & ok & -> & Hid); exists id, ok; split; [reflexivity|right; exact Hid].
Qed.

(** A bulk send run on a selection that was narrowed to the visible leads
    only contacts visible leads: every [sendWhatsApp] it makes is for the
    [property_id] of a lead in [filteredLeads]. *)
Theorem handleBulkSend_after_prune (sendWhatsApp : list QueueEffect -> string -> bool)
    (filteredLeads : list Lead) (st : Dashboard) :
  let st1 := {| multiSelectMode := multiSelectMode st;
                selectedIds := prune_selection filteredLeads (selectedIds st);
                pendingIds := pendingIds st; banner := banner st; queue_log := queue_log st |} in
  exists sent,
    queue_log (handleBulkSend sendWhatsApp st1) = app (queue_log st) sent /\
    forall id ok, In (SendWhatsApp id ok) sent ->
      exists l, In l filteredLeads /\ property_id l = id.
Proof.
  intros st1; unfold handleBulkSend.
  destruct (selectedIds st1) as [|x rest] eqn:Esel.
  - exists []; rewrite app_nil_r; split; [reflexivity|intros id ok []].
  - match goal with |- context [send_loop ?f ?ids ?s0 ?f0 ?log] =>
      destruct (send_loop_log f ids s0 f0 log) as (sent & Hs & He);
      destruct (send_loop f ids s0 f0 log) as [[sc fc] log1] eqn:Eloop
    end.
    cbn [snd] in Hs; subst log1; cbn [queue_log].
    assert (Hvis : forall id ok, In (SendWhatsApp id ok) sent ->
                   exists l, In l filteredLeads /\ property_id l = id).
    { intros id ok Hin; destruct (He _ Hin) as (id' & ok' & E & Hid).
      injection E as -> ->.
      rewrite <- Esel in Hid; unfold st1 in Hid; cbn [selectedIds] in Hid.
      exact (proj2 (prune_selection_in _ _ _ Hid)). }
    destruct (Nat.ltb 0 sc).
    + exists (app sent [RefreshLeads]); rewrite app_assoc; split; [reflexivity|].
      intros id ok Hin; apply in_app_or in Hin as [Hin|[H|[]]]; [exact (Hvis _ _ Hin)|discriminate].
    + exists sent; split; [reflexivity|exact Hvis].
Qed.

Lemma str_set_delete_NoDup (s : list string) (x : string) : NoDup s -> NoDup (str_set_delete s x).
Proof. apply js_filter_NoDup. Qed.

Lemma str_set_add_NoDup (s : list string) (x : string) : NoDup s -> NoDup (str_set_add s x).
Proof.
  intros Hnd; unfold str_set_add.
  destruct (existsb (String.eqb x) s) eqn:E; [exact Hnd|].
  apply NoDup_app; [exact Hnd|repeat constructor; intros []|].
  intros y Hy [<-|[]]; rewrite <- not_true_iff_false in E; apply E, str_set_has_iff, Hy.
Qed.

(** [toggleSelect] keeps the selection free of duplicates, flips the
    membership of the toggled id and of no other, and toggling the same id
    twice gives back the same members. *)
Theorem toggleSelect_spec (propertyId : string) (prev : list string) (Hnd : NoDup prev) :
  NoDup (toggleSelect propertyId prev) /\
  (In propertyId (toggleSelect propertyId prev) <-> ~ In propertyId prev) /\
  (forall id, id <> propertyId -> (In id (toggleSelect propertyId prev) <-> In id prev)) /\
  (forall id, In id (toggleSelect propertyId (toggleSelect propertyId prev)) <-> In id prev).
Proof.
  assert (H1 : forall s, (In propertyId (toggleSelect propertyId s) <-> ~ In propertyId s) /\
               (forall id, id <> propertyId -> (In id (toggleSelect propertyId s) <-> In id s))).
  { intros s; unfold toggleSelect; destruct (str_set_has s propertyId) eqn:E.
    - apply str_set_has_iff in E; split.
      + rewrite str_set_delete_in; tauto.
      + intros id Hid; rewrite str_set_delete_in; tauto.
    - assert (Hn : ~ In propertyId s) by (rewrite <- str_set_has_iff, E; discriminate).
      split.
      + rewrite str_set_add_in; tauto.
      + intros id Hid; rewrite str_set_add_in; tauto. }
  split; [|split; [apply H1|split; [apply H1|]]].
  - unfold toggleSelect; destruct (str_set_has prev propertyId).
    + apply str_set_delete_NoDup, Hnd.
    + apply str_set_add_NoDup, Hnd.
  - intros id; destruct (String.eqb_spec id propertyId) as [->|Hne].
    + destruct (H1 (toggleSelect propertyId prev)) as [Ha _]; rewrite Ha.
      destruct (H1 prev) as [Hb _]; rewrite Hb.
      destruct (In_dec string_dec propertyId prev); tauto.
    + rewrite (proj2 (H1 _) id Hne), (proj2 (H1 _) id Hne); reflexivity.
Qed.

(** The updates [handleSingleSend] makes itself: it ends with its id out
    of the pending set, whether the send resolves or rejects, and keeps
    the multi-select mode; it makes exactly one [sendWhatsApp] call,
    followed by the leads refresh exactly when the call resolves; and its
    last banner is the success banner when the call resolves, otherwise an
    error banner with the error's message or ["Failed to send WhatsApp."]. *)
Theorem handleSingleSend_spec (sendWhatsApp : list QueueEffect -> string -> CallOutcome)
    (propertyId : string) (st : Dashboard) :
  let st' := handleSingleSend sendWhatsApp propertyId st in
  let outcome := sendWhatsApp (queue_log st) propertyId in
  ~ In propertyId (pendingIds st') /\
  multiSelectMode st' = multiSelectMode st /\
  queue_log st' = app (queue_log st)
    (match outcome with
     | Resolved => [SendWhatsApp propertyId true; RefreshLeads]
     | _ => [SendWhatsApp propertyId false]
     end) /\
  banner st' = Some (match outcome with
                     | Resolved => {| tone := ToneSuccess; message := "WhatsApp message sent." |}
                     | RejectedWithError msg => {| tone := ToneError; message := msg |}
                     | RejectedWithValue =>
                         {| tone := ToneError; message := "Failed to send WhatsApp." |}
                     end).
Proof.
  intros st' outcome.
  assert (Hp : forall id, In id (pendingIds st') <-> In id (pendingIds st) /\ id <> propertyId).
  { intros id; unfold st', handleSingleSend.
    destruct (sendWhatsApp (queue_log st) propertyId); cbn [pendingIds];
      rewrite str_set_delete_in, str_set_add_in; tauto. }
  split; [rewrite Hp; tauto|].
  unfold st', outcome, handleSingleSend.
  destruct (sendWhatsApp (queue_log st) propertyId) as [|msg|];
    cbn [multiSelectMode queue_log banner]; repeat split.
Qed.

(** ** The chats page *)

Lemma js_filter_In {A : Type} (p : A -> bool) (l : list A) (x : A) :
  In x (js_filter p l) <-> In x l /\ p x = true.
Proof.
  induction l as [|y l IH]; simpl; [tauto|].
  destruct (p y) eqn:E; simpl; rewrite IH; split.
  - intros [<-|[H1 H2]]; auto.
  - intros [[<-|H1] H2]; auto.
  - intros [H1 H2]; auto.
  - intros [[<-|H1] H2]; [congruence|auto].
Qed.

Lemma js_sort_desc {A : Type} (v : A -> Z) (l : list A) :
  StronglySorted (fun a b => (v b <= v a)%Z) (js_sort (fun a b => (v b - v a)%Z) l).
Proof.
  apply (StronglySorted_impl_in (fun a b => (v b - v a <= 0)%Z)); [intros; lia|].
  apply Sorted_StronglySorted; [intros a b c Hab Hbc; lia|].
  apply (js_sort_sorted (fun a b => (v b - v a)%Z)); intros a b; lia.
Qed.

(** The chats list shows, once each, exactly the leads that pass the
    applied filters and match the search text (every lead matches the
    empty search), in descending order of their activity time. *)
Theorem chats_sortedLeads_spec (STN : string -> num) (NTS : Q -> string) (DP : string -> option Z)
    (toLowerCase : string -> string) (leads : list Lead) (appliedFilters : LeadFilters)
    (searchTerm : string) :
  let shown := chats_sortedLeads STN NTS DP toLowerCase leads appliedFilters searchTerm in
  Permutation shown
    (js_filter (fun l => lead_matches STN NTS DP appliedFilters l &&
                         matchesSearch toLowerCase l searchTerm) leads) /\
  StronglySorted (fun a b => (getActivityValue DP b <= getActivityValue DP a)%Z) shown.
Proof.
  intros shown; split.
  - unfold shown, chats_sortedLeads; eapply perm_trans; [apply js_sort_perm|].
    rewrite applyLeadFilters_eq.
    destruct (String.eqb searchTerm "") eqn:E.
    + apply String.eqb_eq in E; subst searchTerm.
      assert (E2 : forall l, lead_matches STN NTS DP appliedFilters l &&
                             matchesSearch toLowerCase l "" = lead_matches STN NTS DP appliedFilters l)
        by (intros l; apply andb_true_r).
      rewrite (js_filter_ext _ _ leads E2); apply Permutation_refl.
    + rewrite js_filter_compose; apply Permutation_refl.
  - apply js_sort_desc.
Qed.

Lemma prefix_app (a b s : string) : String.prefix (a ++ b)%string s = true -> String.prefix a s = true.
Proof.
  revert s; induction a as [|c a IH]; intros s; [destruct s; reflexivity|].
  destruct s as [|d s]; simpl; [discriminate|].
  destruct (ascii_dec c d); [apply IH|discriminate].
Qed.

Lemma str_includes_app (value a b : string) :
  str_includes value (a ++ b)%string = true -> str_includes value a = true.
Proof.
  induction value as [|c value IH]; cbn [str_includes]; intros H.
  - apply orb_true_iff in H as [H|H]; [|discriminate].
    rewrite (prefix_app a b _ H); reflexivity.
  - apply orb_true_iff in H as [H|H]; apply orb_true_iff.
    + left; exact (prefix_app a b _ H).
    + right; exact (IH H).
Qed.

Section Narrowing.

(** [toLowerCase] commutes with concatenation (true of ASCII case
    mapping; Unicode special-casing such as the Greek final sigma breaks
    it). *)
Variable toLowerCase : string -> string.
Hypothesis toLowerCase_app :
  forall a b, toLowerCase (a ++ b)%string = (toLowerCase a ++ toLowerCase b)%string.

Lemma matchesSearch_narrow (l : Lead) (q r : string) :
  matchesSearch toLowerCase l (q ++ r)%string = true -> matchesSearch toLowerCase l q = true.
Proof.
  unfold matchesSearch.
  destruct (String.eqb q "") eqn:Eq; [reflexivity|].
  destruct (String.eqb (q ++ r)%string "") eqn:Eqr.
  - apply String.eqb_eq in Eqr; destruct q; [discriminate|discriminate].
  - rewrite toLowerCase_app; intros H.
    apply existsb_exists in H as (v & Hv & Hi).
    apply existsb_exists; exists v; split; [exact Hv|exact (str_includes_app _ _ _ Hi)].
Qed.

End Narrowing.

(** Typing more of the search text never brings back a hidden chat: every
    lead shown for the search [q ++ r] is shown for [q], as long as
    [toLowerCase] commutes with concatenation. *)
Theorem chats_search_narrows (STN : string -> num) (NTS : Q -> string) (DP : string -> option Z)
    (toLowerCase : string -> string)
    (Hlow : forall a b, toLowerCase (a ++ b)%string = (toLowerCase a ++ toLowerCase b)%string)
    (leads : list Lead) (appliedFilters : LeadFilters) (q r : string) (l : Lead) :
  In l (chats_sortedLeads STN NTS DP toLowerCase leads appliedFilters (q ++ r)%string) ->
  In l (chats_sortedLeads STN NTS DP toLowerCase leads appliedFilters q).
Proof.
  destruct (chats_sortedLeads_spec STN NTS DP toLowerCase leads appliedFilters (q ++ r)%string)
    as [P1 _].
  destruct (chats_sortedLeads_spec STN NTS DP toLowerCase leads appliedFilters q) as [P2 _].
  intros H; apply (Permutation_in l P1), js_filter_In in H as [Hl Hm].
  apply (Permutation_in l (Permutation_sym P2)), js_filter_In; split; [exact Hl|].
  apply andb_true_iff in Hm as [Hf Hs]; rewrite Hf.
  rewrite (matchesSearch_narrow toLowerCase Hlow l q r Hs); reflexivity.
Qed.

Lemma StronglySorted_order {A : Type} (R : A -> A -> Prop) (l : list A) (a b : A) :
  StronglySorted R l -> In a l -> In b l -> a <> b -> ~ R a b ->
  exists l1 l2 l3, l = app l1 (b :: app l2 (a :: l3)).
Proof.
  induction l as [|x rest IH]; intros Hs Ha Hb Hne Hr; [contradiction|].
  apply StronglySorted_inv in Hs as [Hs Hf]; rewrite Forall_forall in Hf.
  destruct Ha as [<-|Ha].
  - destruct Hb as [<-|Hb]; [contradiction|exfalso; apply Hr, Hf, Hb].
  - destruct Hb as [<-|Hb].
    + apply in_split in Ha as (l2 & l3 & ->); exists [], l2, l3; reflexivity.
    + destruct (IH Hs Ha Hb Hne Hr) as (l1 & l2 & l3 & ->).
      exists (x :: l1), l2, l3; reflexivity.
Qed.

(** A chat whose [last_message_at] is the empty string has activity 0 —
    [??] does not fall back on [""] and [ts ? ... : 0] gives 0 —
    whatever its outreach history and [date_added]; so every shown chat
    with a positive activity time is listed before it. *)
Theorem chats_blank_last_message_sorts_after (STN : string -> num) (NTS : Q -> string)
    (DP : string -> option Z) (toLowerCase : string -> string) (leads : list Lead)
    (appliedFilters : LeadFilters) (searchTerm : string) (a b : Lead)
    (Hblank : last_message_at a = Some "")
    (Ha : In a (chats_sortedLeads STN NTS DP toLowerCase leads appliedFilters searchTerm))
    (Hb : In b (chats_sortedLeads STN NTS DP toLowerCase leads appliedFilters searchTerm))
    (Hpos : (0 < getActivityValue DP b)%Z) :
  getActivityValue DP a = 0%Z /\
  exists l1 l2 l3,
    chats_sortedLeads STN NTS DP toLowerCase leads appliedFilters searchTerm =
      app l1 (b :: app l2 (a :: l3)).
Proof.
  assert (H0 : getActivityValue DP a = 0%Z)
    by (unfold getActivityValue, getActivityTimestamp; rewrite Hblank; reflexivity).
  split; [exact H0|].
  destruct (chats_sortedLeads_spec STN NTS DP toLowerCase leads appliedFilters searchTerm)
    as [_ Hs].
  apply (StronglySorted_order _ _ a b Hs Ha Hb).
  - intros ->; lia.
  - lia.
Qed.

(** ** The filter panel *)

(** Typing more of a region or zone search never brings back a hidden
    option, as long as [toLowerCase] commutes with concatenation: the
    options shown for the longer query are a subsequence of those shown
    for the shorter one. *)
Theorem filterOptionsByQuery_narrows (toLowerCase : string -> string)
    (Hlow : forall a b, toLowerCase (a ++ b)%string = (toLowerCase a ++ toLowerCase b)%string)
    (opts : list OptionItem) (q r : string) :
  subseq (filterOptionsByQuery toLowerCase opts (q ++ r)%string)
         (filterOptionsByQuery toLowerCase opts q).
Proof.
  unfold filterOptionsByQuery.
  destruct (String.eqb q "") eqn:Eq.
  - destruct (String.eqb (q ++ r)%string ""); [apply subseq_refl|apply js_filter_subseq].
  - destruct (String.eqb (q ++ r)%string "") eqn:Eqr.
    + apply String.eqb_eq in Eqr; destruct q; discriminate.
    + rewrite Hlow.
      induction opts as [|o opts IH]; simpl; [constructor|].
      destruct (str_includes (toLowerCase (label o)) (toLowerCase q ++ toLowerCase r)) eqn:E.
      * rewrite (str_includes_app _ _ _ E); constructor; exact IH.
      * destruct (str_includes (toLowerCase (label o)) (toLowerCase q)); [constructor|]; exact IH.
Qed.

Lemma includes_num_remove (l : list num) (v w : Q) :
  includes_num (js_filter (fun t => negb (num_eqb t (Fin v))) l) w =
  includes_num l w && negb (Qeq_bool w v).
Proof.
  unfold includes_num; induction l as [|x l IH]; simpl; [reflexivity|].
  destruct x as [q| | |]; simpl; try exact IH.
  destruct (Qeq_bool q v) eqn:Eqv; simpl; rewrite ?IH.
  - destruct (Qeq_bool q w) eqn:Eqw; simpl; [|reflexivity].
    rewrite Qeq_bool_sym' in Eqw.
    rewrite (Qeq_bool_trans' _ _ _ Eqw Eqv); rewrite andb_false_r; reflexivity.
  - destruct (Qeq_bool q w) eqn:Eqw; simpl; [|reflexivity].
    destruct (Qeq_bool w v) eqn:Ewv; [|reflexivity].
    rewrite (Qeq_bool_trans' _ _ _ Eqw Ewv) in Eqv; discriminate.
Qed.

Lemma includes_num_snoc (l : list num) (v w : Q) :
  includes_num (app l [Fin v]) w = includes_num l w || Qeq_bool w v.
Proof.
  unfold includes_num; rewrite existsb_app; simpl.
  rewrite orb_false_r, Qeq_bool_sym'; reflexivity.
Qed.

Lemma togglePropertyType_includes (value : Q) (prev : LeadFilters) (w : Q) :
  includes_num (propertyTypes (togglePropertyType value prev)) w =
  if Qeq_bool w value then negb (includes_num (propertyTypes prev) value)
  else includes_num (propertyTypes prev) w.
Proof.
  unfold togglePropertyType; cbn [propertyTypes].
  destruct (includes_num (propertyTypes prev) value) eqn:Ei.
  - rewrite includes_num_remove.
    destruct (Qeq_bool w value); [apply andb_false_r|apply andb_true_r].
  - rewrite includes_num_snoc.
    destruct (Qeq_bool w value) eqn:Ew; [apply orb_true_r|apply orb_false_r].
Qed.

Lemma togglePropertyType_nonempty (value : Q) (prev : LeadFilters) :
  propertyTypes (togglePropertyType value (togglePropertyType value prev)) = [] <->
  propertyTypes prev = [].
Proof.
  assert (Hne : forall l : list num, includes_num l value = false ->
                js_filter (fun t => negb (num_eqb t (Fin value))) l = l).
  { unfold includes_num; intros l; induction l as [|x l IH]; simpl; intros Hl; [reflexivity|].
    apply orb_false_iff in Hl as [Hx Hl]; rewrite Hx, IH; [reflexivity|exact Hl]. }
  unfold togglePropertyType; cbn [propertyTypes].
  destruct (includes_num (propertyTypes prev) value) eqn:Ei.
  - rewrite includes_num_remove, Ei, Qeq_bool_refl'; cbn [negb andb].
    split; intros E; exfalso; [destruct (js_filter _ _); discriminate|].
    rewrite E in Ei; discriminate.
  - rewrite includes_num_snoc, Qeq_bool_refl', orb_true_r.
    rewrite js_filter_app, (Hne _ Ei); simpl; rewrite Qeq_bool_refl'; simpl.
    rewrite app_nil_r; reflexivity.
Qed.

Lemma includes_num_Qeq (l : list num) (v w : Q) :
  Qeq_bool w v = true -> includes_num l w = includes_num l v.
Proof.
  intros Hwv; unfold includes_num; induction l as [|x l IH]; simpl; [reflexivity|].
  rewrite IH; f_equal.
  destruct x as [q| | |]; simpl; try reflexivity.
  destruct (Qeq_bool q w) eqn:E1, (Qeq_bool q v) eqn:E2; try reflexivity; exfalso.
  - rewrite (Qeq_bool_trans' _ _ _ E1 Hwv) in E2; discriminate.
  - rewrite Qeq_bool_sym' in Hwv.
    rewrite (Qeq_bool_trans' _ _ _ E2 Hwv) in E1; discriminate.
Qed.

(** Ticking a property-type box flips whether that type is selected and
    leaves every other type as it was; ticking it twice gives back a
    filter set that selects exactly the same leads. *)
Theorem togglePropertyType_spec (value : Q) (prev : LeadFilters) :
  includes_num (propertyTypes (togglePropertyType value prev)) value =
    negb (includes_num (propertyTypes prev) value) /\
  (forall w, Qeq_bool w value = false ->
     includes_num (propertyTypes (togglePropertyType value prev)) w =
     includes_num (propertyTypes prev) w) /\
  (forall (STN : string -> num) (NTS : Q -> string) (DP : string -> option Z) (leads : list Lead),
     applyLeadFilters STN NTS DP leads (togglePropertyType value (togglePropertyType value prev)) =
     applyLeadFilters STN NTS DP leads prev).
Proof.
  split; [rewrite togglePropertyType_includes, Qeq_bool_refl'; reflexivity|].
  split; [intros w Hw; rewrite togglePropertyType_includes, Hw; reflexivity|].
  intros STN NTS DP leads; rewrite !applyLeadFilters_eq; apply js_filter_ext; intros l.
  set (f2 := togglePropertyType value (togglePropertyType value prev)).
  assert (Hinc : forall w, includes_num (propertyTypes f2) w = includes_num (propertyTypes prev) w).
  { intros w; unfold f2; rewrite !togglePropertyType_includes.
    destruct (Qeq_bool w value) eqn:Ew; [|reflexivity].
    rewrite Qeq_bool_refl', negb_involutive; symmetry; apply includes_num_Qeq, Ew. }
  assert (Hpt : clause_property_type STN NTS f2 (raw_of l) =
                clause_property_type STN NTS prev (raw_of l)).
  { unfold clause_property_type.
    pose proof (togglePropertyType_nonempty value prev) as Hn; fold f2 in Hn.
    destruct (propertyTypes f2) as [|x xs] eqn:E2, (propertyTypes prev) as [|y ys] eqn:E1.
    - reflexivity.
    - discriminate (proj1 Hn eq_refl).
    - discriminate (proj2 Hn eq_refl).
    - rewrite <- E2, <- E1.
      destruct (toNumber STN NTS (obj_get (raw_of l) "property_type")) as [q|]; [|reflexivity].
      destruct (falsy_num (Some q)); [reflexivity|].
      rewrite <- E2, <- E1 in Hinc; apply Hinc. }
  unfold lead_matches; rewrite Hpt; reflexivity.
Qed.

(** ** Witnesses of the properties with hypotheses *)

(** The filters of [filters_bad_from] keep exactly the leads whose
    [date_added] parses: [lead_p1], not [lead_bad_date]. *)
Lemma applyLeadFilters_unparseable_dateFrom_witness :
  parseISO_model ("2024-13-45" ++ "T00:00:00")%string = None /\
  applyLeadFilters StringToNumber_model NumberToString_model parseISO_model
    [lead_p1; lead_bad_date] filters_bad_from =
  js_filter (fun l => match parseISO_model (date_added l) with Some _ => true | None => false end)
    (applyLeadFilters StringToNumber_model NumberToString_model parseISO_model
       [lead_p1; lead_bad_date] (with_dateFrom filters_bad_from None)).
Proof.
  split; [vm_compute; reflexivity|].
  apply (applyLeadFilters_unparseable_dateFrom StringToNumber_model NumberToString_model
           parseISO_model [lead_p1; lead_bad_date] filters_bad_from "2024-13-45").
  - reflexivity.
  - discriminate.
  - vm_compute; reflexivity.
Defined.

(** A region named by a lone no-break space gets the placeholder label
    [Județ #3], which is not blank. *)
Lemma deriveFilterOptions_labels_nonblank_witness :
  let o := {| value := 3; label := "Județ #3" |} in
  regions (deriveFilterOptions StringToNumber_model NumberToString_model
             localeCompare_model [lead_nbsp_region]) = [o] /\
  (0 < String.length (js_trim (label o)))%nat.
Proof.
  intros o.
  assert (H : regions (deriveFilterOptions StringToNumber_model NumberToString_model
                         localeCompare_model [lead_nbsp_region]) = [o])
    by (vm_compute; reflexivity).
  split; [exact H|].
  apply (deriveFilterOptions_labels_nonblank StringToNumber_model NumberToString_model
           localeCompare_model [lead_nbsp_region] o); left; rewrite H; left; reflexivity.
Defined.

(** A lead of type 9 only: no property-type option is offered. *)
Lemma deriveFilterOptions_unknown_types_empty_witness :
  optPropertyTypes (deriveFilterOptions StringToNumber_model NumberToString_model
                      localeCompare_model [lead_type9]) = [].
Proof.
  apply deriveFilterOptions_unknown_types_empty.
  - exists lead_type9, 9%Q; split; [left; reflexivity|reflexivity].
  - intros l q o [<-|[]] Hq Ho; vm_compute in Hq; injection Hq as <-.
    repeat (destruct Ho as [<-|Ho]; [reflexivity|]); destruct Ho.
Defined.

(** [leads_outreach] is grouped without an error. *)
Lemma groupByLastOutreach_buckets_witness :
  outreach_keys_parse parseISO_model leads_outreach = true /\
  exists groups, groupByLastOutreach parseISO_model today_example leads_outreach = Ok groups.
Proof.
  assert (H : outreach_keys_parse parseISO_model leads_outreach = true) by (vm_compute; reflexivity).
  split; [exact H|].
  destruct (groupByLastOutreach_buckets parseISO_model today_example leads_outreach H)
    as (g & Hg & _).
  exists g; exact Hg.
Defined.

(** A lead whose only entry is dated ["not-a-date"] makes the grouping throw. *)
Lemma groupByLastOutreach_unparseable_throws_witness :
  let l := contacted_lead "o5" "2024-01-01" [outreach_entry (Some "not-a-date")] in
  groupByLastOutreach parseISO_model today_example (l :: leads_outreach) =
  Throw (RangeError "Invalid time value").
Proof.
  intros l.
  apply (groupByLastOutreach_unparseable_throws parseISO_model today_example _ l).
  - left; reflexivity.
  - discriminate.
  - vm_compute; reflexivity.
Defined.

(** [lead_blank_entry] lands in the ["Unknown date"] group. *)
Lemma groupByLastOutreach_blank_entry_date_witness :
  exists groups,
    groupByLastOutreach parseISO_model today_example (lead_blank_entry :: leads_outreach) =
      Ok groups /\
    exists g, In g groups /\ group_label g = "Unknown date" /\ In lead_blank_entry (group_leads g).
Proof.
  destruct (groupByLastOutreach parseISO_model today_example (lead_blank_entry :: leads_outreach))
    as [groups|e] eqn:E; [|vm_compute in E; discriminate].
  exists groups; split; [reflexivity|].
  apply (groupByLastOutreach_blank_entry_date parseISO_model today_example _ groups
           lead_blank_entry (outreach_entry (Some "")) E).
  - left; reflexivity.
  - reflexivity.
  - reflexivity.
Defined.

(** Pruning ["r0"; "zz"; "p1"] to the leads [lead_p1] and [lead_region0]. *)
Lemma prune_selection_spec_witness :
  NoDup ["r0"; "zz"; "p1"] /\
  prune_selection [lead_p1; lead_region0] ["r0"; "zz"; "p1"] = ["r0"; "p1"].
Proof.
  assert (H : NoDup ["r0"; "zz"; "p1"])
    by (repeat constructor; simpl; intuition discriminate).
  split; [exact H|].
  rewrite (prune_selection_spec [lead_p1; lead_region0] ["r0"; "zz"; "p1"] H); reflexivity.
Defined.

(** Toggling ["b"] in the selection ["a"; "b"]. *)
Lemma toggleSelect_spec_witness :
  NoDup ["a"; "b"] /\
  NoDup (toggleSelect "b" ["a"; "b"]) /\
  (In "b" (toggleSelect "b" ["a"; "b"]) <-> ~ In "b" ["a"; "b"]) /\
  (forall id, id <> "b" -> (In id (toggleSelect "b" ["a"; "b"]) <-> In id ["a"; "b"])) /\
  (forall id, In id (toggleSelect "b" (toggleSelect "b" ["a"; "b"])) <-> In id ["a"; "b"]).
Proof.
  assert (H : NoDup ["a"; "b"]) by (repeat constructor; simpl; intuition discriminate).
  split; [exact H|apply (toggleSelect_spec "b" ["a"; "b"] H)].
Defined.

Lemma lower_app (a b : string) : lower (a ++ b) = (lower a ++ lower b)%string.
Proof. induction a as [|c a IH]; simpl; [reflexivity|rewrite IH; reflexivity]. Qed.

(** Searching [leads_chats] for ["andr"] and for ["an"]. *)
Lemma chats_search_narrows_witness :
  let l := chat_lead "c2" "Andrei" (Some "2026-10-14T09:00:00Z") in
  In l (chats_sortedLeads StringToNumber_model NumberToString_model parseISO_model lower
          leads_chats DEFAULT_LEAD_FILTERS ("an" ++ "dr")%string) /\
  In l (chats_sortedLeads StringToNumber_model NumberToString_model parseISO_model lower
          leads_chats DEFAULT_LEAD_FILTERS "an").
Proof.
  intros l.
  assert (H : In l (chats_sortedLeads StringToNumber_model NumberToString_model parseISO_model lower
                      leads_chats DEFAULT_LEAD_FILTERS ("an" ++ "dr")%string))
    by (vm_compute; left; reflexivity).
  split; [exact H|].
  apply (chats_search_narrows StringToNumber_model NumberToString_model parseISO_model lower
           lower_app leads_chats DEFAULT_LEAD_FILTERS "an" "dr" l H).
Defined.

(** The chat [c1] with a blank last-message time is listed after [c2]. *)
Lemma chats_blank_last_message_sorts_after_witness :
  getActivityValue parseISO_model (chat_lead "c1" "Ana" (Some "")) = 0%Z /\
  exists l1 l2 l3,
    chats_sortedLeads StringToNumber_model NumberToString_model parseISO_model lower
      leads_chats DEFAULT_LEAD_FILTERS "" =
    app l1 (chat_lead "c2" "Andrei" (Some "2026-10-14T09:00:00Z") ::
            app l2 (chat_lead "c1" "Ana" (Some "") :: l3)).
Proof.
  apply chats_blank_last_message_sorts_after.
  - reflexivity.
  - vm_compute; right; right; left; reflexivity.
  - vm_compute; left; reflexivity.
  - vm_compute; reflexivity.
Defined.

(** Filtering [options_regions] by ["bi"] and by ["bis"]. *)
Lemma filterOptionsByQuery_narrows_witness :
  subseq (filterOptionsByQuery lower options_regions ("bi" ++ "s")%string)
         (filterOptionsByQuery lower options_regions "bi").
Proof.
  apply (filterOptionsByQuery_narrows lower lower_app options_regions "bi" "s").
Defined.
